(** * JobRoadmapPopup: the upskilling roadmap and its two-mode view

    A shallow embedding of
    [src/frontend/src/components/jobs/JobRoadmapPopup.tsx]: the two
    generators [generateResources] and [generateMilestones], the derivation of
    [roadmapSteps], [totalWeeks] and [totalMonths] in the component body, and
    the handlers that drive [showLearningPath] and [activeSkillIndex].

    Conventions of the embedding.
    - A JavaScript string is its sequence of UTF-16 code units, so that
      [.length] is the length of the list.
    - A JavaScript number is the rational it stands for.  The component
      multiplies and divides by 4, which binary floating point does exactly
      (short of overflow), and adds up the weeks on line 132, where every
      addition is rounded to the nearest double ([round64]).  NaN and the
      infinities are outside the model.  Array indices and lengths are
      integers.
    - A call that can throw returns a [result]. *)

From Stdlib Require Import ZArith NArith QArith Qround Qabs Qpower Lqa String Ascii.
From stdpp Require Import base option list gmap.

Open Scope Z_scope.

(** ** Strings *)

(** A string as the list of its UTF-16 code units. *)
Abbreviation jsstring := (list N).

(** A string literal of the source (all of them are ASCII). *)
Definition lit (s : string) : jsstring :=
  map N_of_ascii (list_ascii_of_string s).

(** [s.length] *)
Definition js_length (s : jsstring) : Z := Z.of_nat (length s).

(** [needle] occurs in [s] as a contiguous run of code units. *)
Definition occurs_in (needle s : jsstring) : Prop :=
  ∃ before after, s = before ++ needle ++ after.

Fixpoint starts_with (needle s : jsstring) : bool :=
  match needle, s with
  | [], _ => true
  | _ :: _, [] => false
  | a :: needle', b :: s' => (a =? b)%N && starts_with needle' s'
  end.

(** The executable counterpart of [occurs_in] ([s.includes(needle)]). *)
Fixpoint includes (s needle : jsstring) : bool :=
  starts_with needle s ||
  match s with
  | [] => false
  | _ :: s' => includes s' needle
  end.

(** ** Exceptions *)

Inductive Exn := URIError.

Inductive result (A : Type) : Type :=
| Ok (a : A)
| Throw (e : Exn).
Arguments Ok {A} a.
Arguments Throw {A} e.

#[global] Instance result_ret : MRet result := λ A, @Ok A.
#[global] Instance result_bind : MBind result := λ A B f m,
  match m with
  | Ok a => f a
  | Throw e => Throw e
  end.

(** ** [encodeURIComponent] and [toLowerCase]

    The two built-ins [generateResources] calls, after ECMA-262
    (Encode, CodePointAt and the UTF-8 transformation). *)

Definition in_range (lo hi c : N) : bool := ((lo <=? c) && (c <=? hi))%N.

(** uriUnescaped: letters, digits and the marks [- _ . ! ~ * ' ( )]. *)
Definition uriUnescaped (c : N) : bool :=
  in_range 65 90 c || in_range 97 122 c || in_range 48 57 c ||
  existsb (N.eqb c) [45; 95; 46; 33; 126; 42; 39; 40; 41]%N.

Definition isLeadingSurrogate (c : N) : bool := in_range 0xD800 0xDBFF c.
Definition isTrailingSurrogate (c : N) : bool := in_range 0xDC00 0xDFFF c.

(** UTF16SurrogatePairToCodePoint *)
Definition surrogatePairToCodePoint (lead trail : N) : N :=
  ((lead - 0xD800) * 0x400 + (trail - 0xDC00) + 0x10000)%N.

(** The octets of the UTF-8 encoding of a code point. *)
Definition utf8 (cp : N) : list N :=
  (if cp <? 0x80 then [cp]
   else if cp <? 0x800 then
     [0xC0 + cp / 0x40; 0x80 + cp mod 0x40]
   else if cp <? 0x10000 then
     [0xE0 + cp / 0x1000; 0x80 + (cp / 0x40) mod 0x40; 0x80 + cp mod 0x40]
   else
     [0xF0 + cp / 0x40000; 0x80 + (cp / 0x1000) mod 0x40;
      0x80 + (cp / 0x40) mod 0x40; 0x80 + cp mod 0x40])%N.

(** An uppercase hexadecimal digit. *)
Definition hexDigit (d : N) : N := (if d <? 10 then 48 + d else 55 + d)%N.

(** ["%XX"] for one octet. *)
Definition percent (octet : N) : jsstring :=
  [37%N; hexDigit (octet / 16); hexDigit (octet mod 16)].

Definition escapeCodePoint (cp : N) : jsstring :=
  concat (map percent (utf8 cp)).

(** Encode with the empty extra set: an unescaped unit is kept, any other
    code point is replaced by its percent-escaped UTF-8 octets, and an
    unpaired surrogate throws a URIError. *)
Fixpoint encodeURIComponent (s : jsstring) : result jsstring :=
  match s with
  | [] => Ok []
  | c :: rest =>
      if uriUnescaped c then
        r ← encodeURIComponent rest; Ok (c :: r)
      else if isLeadingSurrogate c then
        match rest with
        | d :: rest' =>
            if isTrailingSurrogate d then
              r ← encodeURIComponent rest';
              Ok (escapeCodePoint (surrogatePairToCodePoint c d) ++ r)
            else Throw URIError
        | [] => Throw URIError
        end
      else if isTrailingSurrogate c then Throw URIError
      else
        r ← encodeURIComponent rest; Ok (escapeCodePoint c ++ r)
  end.

(** No code unit of [s] is a surrogate without its partner. *)
Fixpoint wellFormed (s : jsstring) : bool :=
  match s with
  | [] => true
  | c :: rest =>
      if isLeadingSurrogate c then
        match rest with
        | d :: rest' => isTrailingSurrogate d && wellFormed rest'
        | [] => false
        end
      else negb (isTrailingSurrogate c) && wellFormed rest
  end.

(** [String.prototype.toLowerCase] on a string of ASCII code units: the
    letters A to Z move to a to z.  Its only receiver in the component is
    the result of [encodeURIComponent], which has no other code units
    (lemma [encodeURIComponent_ascii]). *)
Definition toLowerCase (s : jsstring) : jsstring :=
  map (λ c, if in_range 65 90 c then (c + 32)%N else c) s.

(** ** The data model (lines 42-58) *)

Inductive ResourceType := course | project | article | video.

Record LearningResource := {
  type : ResourceType;
  title : jsstring;
  provider : jsstring;
  duration : jsstring;
  link : option jsstring;
}.

Inductive Difficulty := Easy | Medium | Hard.

Record RoadmapStep := {
  skill : jsstring;
  difficulty : Difficulty;
  weeks : Q;
  order : Z;
  category : jsstring;
  resources : list LearningResource;
  milestones : list jsstring;
}.

(** ** The generators (lines 60-104) *)

Definition generateResources (skill : jsstring) : result (list LearningResource) :=
  encodedSkill ← encodeURIComponent skill;
  Ok [ {| type := course;
          title := lit "Complete " ++ skill ++ lit " Masterclass";
          provider := lit "Udemy";
          duration := lit "20 hours";
          link := Some (lit "https://www.udemy.com/courses/search/?q=" ++ encodedSkill) |};
       {| type := video;
          title := skill ++ lit " Crash Course";
          provider := lit "YouTube";
          duration := lit "2 hours";
          link := Some (lit "https://www.youtube.com/results?search_query="
                          ++ encodedSkill ++ lit "+tutorial") |};
       {| type := project;
          title := lit "Build a " ++ skill ++ lit " Project";
          provider := lit "GitHub";
          duration := lit "10 hours";
          link := Some (lit "https://github.com/topics/" ++ toLowerCase encodedSkill) |};
       {| type := article;
          title := skill ++ lit " Best Practices Guide";
          provider := lit "Google";
          duration := lit "30 mins";
          link := Some (lit "https://www.google.com/search?q="
                          ++ encodedSkill ++ lit "+best+practices+guide") |} ].

Definition generateMilestones (skill : jsstring) : list jsstring :=
  [ lit "Understand " ++ skill ++ lit " fundamentals and core concepts";
    lit "Complete hands-on exercises and tutorials";
    lit "Build a mini-project using " ++ skill;
    lit "Apply " ++ skill ++ lit " in a real-world scenario" ].

(** ** The component body (lines 106-133) *)

Module Taxonomy.
(** An entry of [skillTaxonomy] (imported from [@/data/mockData]). *)
Record entry := {
  difficulty : Difficulty;
  learningTimeMonths : Q;
  category : jsstring;
}.
End Taxonomy.

Module Job.
(** The fields of [Job] the derivation reads; [missingSkills] may be
    absent at run time, which is what line 114 guards against. *)
Record t := {
  title : jsstring;
  company : jsstring;
  location : jsstring;
  matchScore : Q;
  missingSkills : option (list jsstring);
}.
End Job.

(** A number in a condition: zero is falsy. *)
Definition number_truthy (x : Q) : bool := negb (Qeq_bool x 0).

(** A string on the left of [||]: the empty string is falsy. *)
Definition string_or (s fallback : jsstring) : jsstring :=
  match s with
  | [] => fallback
  | _ :: _ => s
  end.

(** [Math.ceil] *)
Definition Math_ceil (x : Q) : Q := inject_Z (Qceiling x).

(** [Number.isInteger] *)
Definition Number_isInteger (x : Q) : bool := Qeq_bool x (inject_Z (Qfloor x)).

(** [xs.map((x, index) => f x index)], stopping at the first call that throws. *)
Fixpoint map_from {A B} (f : A → Z → result B) (index : Z) (xs : list A)
  : result (list B) :=
  match xs with
  | [] => Ok []
  | x :: xs' =>
      y ← f x index;
      ys ← map_from f (index + 1) xs';
      Ok (y :: ys)
  end.

Definition Array_map {A B} (f : A → Z → result B) (xs : list A) : result (list B) :=
  map_from f 0 xs.

(** Line 114: [job.missingSkills || []]. *)
Definition missingSkills (job : Job.t) : list jsstring :=
  default [] (Job.missingSkills job).

(** Line 118: the step's difficulty, from the result of the taxonomy lookup.
    The three difficulty strings are non-empty, so [||] keeps the entry's. *)
Definition difficulty_of (taxonomy : option Taxonomy.entry) (skill : jsstring)
  : Difficulty :=
  match taxonomy with
  | Some t => Taxonomy.difficulty t
  | None =>
      if js_length skill >? 8 then Hard
      else if js_length skill >? 5 then Medium
      else Easy
  end.

(** Line 119, the branch without a usable [learningTimeMonths]. *)
Definition fallback_weeks (d : Difficulty) : Q :=
  match d with
  | Hard => 4
  | Medium => 2
  | Easy => 1
  end.

(** Line 119: the step's weeks. *)
Definition weeks_of (taxonomy : option Taxonomy.entry) (d : Difficulty) : Q :=
  match taxonomy with
  | Some t =>
      if number_truthy (Taxonomy.learningTimeMonths t)
      then Taxonomy.learningTimeMonths t * 4
      else fallback_weeks d
  | None => fallback_weeks d
  end.

(** Line 126: the step's category. *)
Definition category_of (taxonomy : option Taxonomy.entry) : jsstring :=
  match taxonomy with
  | Some t => string_or (Taxonomy.category t) (lit "General")
  | None => lit "General"
  end.

Section Component.

(** The table [skillTaxonomy] of [@/data/mockData], keyed by skill name.
    A name that is no key of the table reads as an absent entry: a property
    inherited from [Object.prototype] has none of the three fields, so
    lines 118-126 treat it as they treat [undefined]. *)
Variable skillTaxonomy : gmap jsstring Taxonomy.entry.

(** Lines 116-130: the callback of [missingSkills.map]. *)
Definition roadmapStep (skill : jsstring) (index : Z) : result RoadmapStep :=
  let taxonomy := skillTaxonomy !! skill in
  let d := difficulty_of taxonomy skill in
  let w := weeks_of taxonomy d in
  rs ← generateResources skill;
  Ok {| skill := skill;
        difficulty := d;
        weeks := w;
        order := index + 1;
        category := category_of taxonomy;
        resources := rs;
        milestones := generateMilestones skill |}.

Definition roadmapSteps (job : Job.t) : result (list RoadmapStep) :=
  Array_map roadmapStep (missingSkills job).

End Component.

(** *** Addition of doubles

    IEEE 754 binary64, round to nearest, ties to even: 53 bits of
    significand, least exponent -1074.  A sum beyond the largest double would
    be an infinity and is outside the model. *)

(** The binade of a non-zero number: the [k] with [2^k <= |x| < 2^(k+1)]. *)
Definition binade (x : Q) : Z :=
  let n := Z.abs (Qnum x) in
  let k := Z.log2 n - Z.log2 (Zpos (Qden x)) in
  if Qle_bool (2 ^ k) (n # Qden x) then k else k - 1.

(** The nearest integer, the even one of two that are equally near. *)
Definition round_half_even (r : Q) : Z :=
  let f := Qfloor r in
  match (r - inject_Z f ?= 1 # 2)%Q with
  | Lt => f
  | Gt => f + 1
  | Eq => if Z.even f then f else f + 1
  end.

(** The exponent of the spacing of the doubles around [x]. *)
Definition ulp_exponent (x : Q) : Z := Z.max (binade x - 52) (-1074).

(** The double nearest to [x]. *)
Definition round64 (x : Q) : Q :=
  if Qeq_bool x 0 then 0%Q
  else
    let y := Qred x in
    (inject_Z (round_half_even (y / 2 ^ ulp_exponent y)) * 2 ^ ulp_exponent y)%Q.

(** [x + y] on two numbers. *)
Definition Number_add (x y : Q) : Q := round64 (x + y).

(** The rationals that are doubles: rounding leaves them alone. *)
Definition isDouble (x : Q) : bool := Qeq_bool (round64 x) x.

(** Line 132: [roadmapSteps.reduce((acc, step) => acc + step.weeks, 0)]. *)
Definition totalWeeks (steps : list RoadmapStep) : Q :=
  fold_left (λ acc step, Number_add acc (weeks step)) steps 0%Q.

(** Line 133.  The weeks are multiples of [2^-1072] (four times a double,
    or 1, 2, 4) and so is their rounded sum, whose quarter is therefore a
    double again: the division is exact. *)
Definition totalMonths (steps : list RoadmapStep) : Q :=
  Math_ceil (totalWeeks steps / 4).

(** The sum of a list of numbers, for stating what [totalWeeks] computes. *)
Definition Qsum (xs : list Q) : Q := foldr Qplus 0%Q xs.

(** ** The view state (lines 111-112) and its handlers *)

Record ViewState := {
  showLearningPath : bool;
  activeSkillIndex : Z;
}.

(** [useState(false)] and [useState(0)]. *)
Definition initialState : ViewState :=
  {| showLearningPath := false; activeSkillIndex := 0 |}.

Definition setShowLearningPath (b : bool) (st : ViewState) : ViewState :=
  {| showLearningPath := b; activeSkillIndex := activeSkillIndex st |}.

Definition setActiveSkillIndex (i : Z) (st : ViewState) : ViewState :=
  {| showLearningPath := showLearningPath st; activeSkillIndex := i |}.

Inductive Mode := Overview | LearningPath.

(** Line 164: which of the two dialogs is rendered, for a roadmap of
    [n] steps. *)
Definition mode (n : Z) (st : ViewState) : Mode :=
  if showLearningPath st && (n >? 0) then LearningPath else Overview.

(** The controls a user can act on. *)
Inductive Event :=
| BackToOverview            (* line 176 *)
| SelectStep (idx : Z)      (* line 215, one button per step [idx] *)
| PreviousSkill             (* lines 353-361 *)
| NextSkill                 (* lines 363-376, the right-hand button *)
| StartJourney.             (* lines 573-585 *)

(** The state change a control fires, or [None] when the control is not
    rendered in the current mode, is disabled, or has no handler. *)
Definition fire (n : Z) (st : ViewState) (ev : Event) : option ViewState :=
  match mode n st, ev with
  | LearningPath, BackToOverview =>
      Some (setShowLearningPath false st)
  | LearningPath, SelectStep idx =>
      if (0 <=? idx) && (idx <? n)
      then Some (setActiveSkillIndex idx st)
      else None
  | LearningPath, PreviousSkill =>
      if activeSkillIndex st =? 0 then None
      else Some (setActiveSkillIndex (Z.max 0 (activeSkillIndex st - 1)) st)
  | LearningPath, NextSkill =>
      if activeSkillIndex st <? n - 1
      then Some (setActiveSkillIndex (activeSkillIndex st + 1) st)
      else None
  | Overview, StartJourney =>
      if n >? 0 then Some (setShowLearningPath true st) else None
  | _, _ => None
  end.

(** The state after the user acts on a control. *)
Definition dispatch (n : Z) (st : ViewState) (ev : Event) : ViewState :=
  default st (fire n st ev).

Definition run (n : Z) (st : ViewState) (evs : list Event) : ViewState :=
  fold_left (dispatch n) evs st.

(** ** The encoder, one code point at a time *)

(** [Encoded s e]: [encodeURIComponent] walks [s] to the end without
    throwing and produces [e].  Each constructor is one turn of its loop. *)
Inductive Encoded : jsstring → jsstring → Prop :=
| Encoded_nil :
    Encoded [] []
| Encoded_keep c s e :
    uriUnescaped c = true →
    Encoded s e →
    Encoded (c :: s) (c :: e)
| Encoded_pair c d s e :
    uriUnescaped c = false →
    isLeadingSurrogate c = true →
    isTrailingSurrogate d = true →
    Encoded s e →
    Encoded (c :: d :: s) (escapeCodePoint (surrogatePairToCodePoint c d) ++ e)
| Encoded_unit c s e :
    uriUnescaped c = false →
    isLeadingSurrogate c = false →
    isTrailingSurrogate c = false →
    Encoded s e →
    Encoded (c :: s) (escapeCodePoint c ++ e).

(** Every element of a string is a 16-bit code unit. *)
Definition validUnits (s : jsstring) : Prop := Forall (λ c, (c < 0x10000)%N) s.

(** The units [encodeURIComponent] can put out: the unescaped ones and the
    percent sign. *)
Definition urlSafe (c : N) : bool := uriUnescaped c || (c =? 37)%N.

(** The learning time the taxonomy gives for a skill name, 0 without entry. *)
Definition monthsOf (skillTaxonomy : gmap jsstring Taxonomy.entry) (name : jsstring) : Q :=
  default 0%Q (Taxonomy.learningTimeMonths <$> skillTaxonomy !! name).

(** ** What the two dialogs read *)

(** [xs[i]] for an integer [i]: [undefined] outside the array. *)
Definition Array_get {A} (xs : list A) (i : Z) : option A :=
  if i <? 0 then None else xs !! Z.to_nat i.

(** Line 165: [roadmapSteps[activeSkillIndex]], read by the learning path
    without a check. *)
Definition activeStep (steps : list RoadmapStep) (st : ViewState) : option RoadmapStep :=
  Array_get steps (activeSkillIndex st).

(** Line 489: [roadmapSteps.slice(0, 3)], the steps the overview previews. *)
Definition previewSteps (steps : list RoadmapStep) : list RoadmapStep :=
  take 3 steps.

(** Line 501: a connector is drawn below the previewed step [idx]. *)
Definition connectorBelow (steps : list RoadmapStep) (idx : Z) : bool :=
  idx <? Z.min (Z.of_nat (length steps) - 1) 2.

(** Lines 537-546: the count of the "more skills" line, when it is shown. *)
Definition moreSkills (steps : list RoadmapStep) : option Z :=
  if Z.of_nat (length steps) >? 3
  then Some (Z.of_nat (length steps) - 3)
  else None.

(** [x || fallback] for an optional string: [undefined] and the empty
    string are falsy. *)
Definition optional_or (x : option jsstring) (fallback : jsstring) : jsstring :=
  match x with
  | Some (c :: s) => c :: s
  | _ => fallback
  end.

(** Line 318: [resource.link || "#"]. *)
Definition href (resource : LearningResource) : jsstring :=
  optional_or (link resource) (lit "#").

(** The string a difficulty is in the source. *)
Definition Difficulty_string (d : Difficulty) : jsstring :=
  match d with
  | Easy => lit "Easy"
  | Medium => lit "Medium"
  | Hard => lit "Hard"
  end.

(** Lines 135-146. *)
Definition getDifficultyColor (difficulty : jsstring) : jsstring :=
  if bool_decide (difficulty = lit "Easy") then
    lit "bg-emerald-500/10 text-emerald-500 border-emerald-500/20"
  else if bool_decide (difficulty = lit "Medium") then
    lit "bg-amber-500/10 text-amber-500 border-amber-500/20"
  else if bool_decide (difficulty = lit "Hard") then
    lit "bg-rose-500/10 text-rose-500 border-rose-500/20"
  else
    lit "bg-muted text-muted-foreground".

(** ** Sample inputs *)

(** The taxonomy entry of the specification's own example. *)
Definition kubernetes_entry : Taxonomy.entry :=
  {| Taxonomy.difficulty := Hard;
     Taxonomy.learningTimeMonths := 2;
     Taxonomy.category := lit "DevOps" |}.

(** An entry whose learning time is three eighths of a month and whose
    category is the empty string. *)
Definition short_entry : Taxonomy.entry :=
  {| Taxonomy.difficulty := Hard;
     Taxonomy.learningTimeMonths := 3 # 8;
     Taxonomy.category := [] |}.

Definition sample_taxonomy : gmap jsstring Taxonomy.entry :=
  {[ lit "Kubernetes" := kubernetes_entry ]}.

Definition empty_taxonomy : gmap jsstring Taxonomy.entry := ∅.

Definition short_taxonomy : gmap jsstring Taxonomy.entry :=
  {[ lit "Kubernetes" := short_entry ]}.

Definition job_with (skills : option (list jsstring)) : Job.t :=
  {| Job.title := lit "Site Reliability Engineer";
     Job.company := lit "Acme";
     Job.location := lit "Remote";
     Job.matchScore := 70;
     Job.missingSkills := skills |}.

(** An entry that gives no learning time. *)
Definition unrated_entry : Taxonomy.entry :=
  {| Taxonomy.difficulty := Medium;
     Taxonomy.learningTimeMonths := 0;
     Taxonomy.category := lit "Cloud" |}.

Definition unrated_taxonomy : gmap jsstring Taxonomy.entry :=
  {[ lit "Terraform" := unrated_entry ]}.

(** Kubernetes with two months and Docker with three. *)
Definition docker_entry : Taxonomy.entry :=
  {| Taxonomy.difficulty := Medium;
     Taxonomy.learningTimeMonths := 3;
     Taxonomy.category := lit "DevOps" |}.

Definition whole_taxonomy : gmap jsstring Taxonomy.entry :=
  <[ lit "Docker" := docker_entry ]> sample_taxonomy.

(** One month, and 2^-62 of a month. *)
Definition month_entry : Taxonomy.entry :=
  {| Taxonomy.difficulty := Easy;
     Taxonomy.learningTimeMonths := 1;
     Taxonomy.category := lit "Data" |}.

Definition instant_entry : Taxonomy.entry :=
  {| Taxonomy.difficulty := Easy;
     Taxonomy.learningTimeMonths := 1 / 2 ^ 62;
     Taxonomy.category := lit "Tools" |}.

Definition rounding_taxonomy : gmap jsstring Taxonomy.entry :=
  <[ lit "Git" := instant_entry ]> {[ lit "SQL" := month_entry ]}.

(** The doubles written 0.1 and 0.8, as learning times. *)
Definition decimal_entry (tenths : Z) : Taxonomy.entry :=
  {| Taxonomy.difficulty := Easy;
     Taxonomy.learningTimeMonths := round64 (tenths # 10);
     Taxonomy.category := lit "Web" |}.

Definition decimal_taxonomy : gmap jsstring Taxonomy.entry :=
  <[ lit "React" := decimal_entry 8 ]>
    (<[ lit "CSS" := decimal_entry 1 ]> {[ lit "HTML" := decimal_entry 1 ]}).

(** * Properties *)

(** ** Strings and the encoder *)

Lemma starts_with_spec needle s :
  starts_with needle s = true ↔ ∃ after, s = needle ++ after.
Proof.
  revert s. induction needle as [|a needle IH]; intros s; simpl.
  - split; [eauto|done].
  - destruct s as [|b s].
    + split; [done|]. intros [after H]. discriminate H.
    + rewrite andb_true_iff, N.eqb_eq, IH. split.
      * intros [-> [after ->]]. eauto.
      * intros [after H]. injection H as -> ->. eauto.
Qed.

Lemma includes_spec s needle :
  includes s needle = true ↔ occurs_in needle s.
Proof.
  unfold occurs_in. induction s as [|b s IH]; simpl.
  - rewrite orb_false_r, starts_with_spec. split.
    + intros [after H]. exists [], after. done.
    + intros ([|x before] & after & H); [eauto|discriminate H].
  - rewrite orb_true_iff, starts_with_spec, IH. split.
    + intros [[after H]|(before & after & H)].
      * exists [], after. done.
      * exists (b :: before), after. by rewrite H.
    + intros ([|x before] & after & H).
      * left. eauto.
      * right. injection H as -> ->. eauto.
Qed.

Lemma occurs_in_middle (before needle after : jsstring) :
  occurs_in needle (before ++ needle ++ after).
Proof. by exists before, after. Qed.

Lemma occurs_in_prefix (needle after : jsstring) :
  occurs_in needle (needle ++ after).
Proof. by exists [], after. Qed.

Lemma occurs_in_suffix (before needle : jsstring) :
  occurs_in needle (before ++ needle).
Proof. exists before, []. by rewrite app_nil_r. Qed.

Create HintDb roadmap.
#[global] Hint Resolve occurs_in_middle occurs_in_prefix occurs_in_suffix : roadmap.

Lemma uriUnescaped_ascii c : uriUnescaped c = true → (c < 128)%N.
Proof.
  unfold uriUnescaped, in_range. simpl.
  rewrite !orb_true_iff, !andb_true_iff, !N.leb_le, !N.eqb_eq. lia.
Qed.

Lemma uriUnescaped_not_surrogate c :
  uriUnescaped c = true →
  isLeadingSurrogate c = false ∧ isTrailingSurrogate c = false.
Proof.
  intros H%uriUnescaped_ascii. unfold isLeadingSurrogate, isTrailingSurrogate, in_range.
  split; apply andb_false_iff; left; apply N.leb_gt; lia.
Qed.

(** The encoder returns exactly on the strings without an unpaired
    surrogate, and throws a URIError on the others. *)
Lemma encodeURIComponent_wellFormed s :
  match encodeURIComponent s with
  | Ok _ => wellFormed s = true
  | Throw URIError => wellFormed s = false
  end.
Proof.
  remember (length s) as n eqn:Hn.
  revert s Hn. induction (lt_wf n) as [n _ IH]. intros s ->.
  destruct s as [|c rest]; [done|].
  assert (Hrest : match encodeURIComponent rest with
                  | Ok _ => wellFormed rest = true
                  | Throw URIError => wellFormed rest = false
                  end) by (apply (IH (length rest)); simpl; [lia|done]).
  simpl. destruct (uriUnescaped c) eqn:Hu.
  - assert (isLeadingSurrogate c = false ∧ isTrailingSurrogate c = false) as [-> ->].
    { by apply uriUnescaped_not_surrogate. }
    simpl. destruct (encodeURIComponent rest) as [r|[]]; simpl; done.
  - destruct (isLeadingSurrogate c).
    + destruct rest as [|d rest']; [done|].
      destruct (isTrailingSurrogate d); [|done].
      specialize (IH (length rest')). ospecialize (IH _ rest' eq_refl); [simpl; lia|].
      simpl. destruct (encodeURIComponent rest') as [r|[]]; simpl; done.
    + destruct (isTrailingSurrogate c); [done|].
      simpl. destruct (encodeURIComponent rest) as [r|[]]; simpl; done.
Qed.

Lemma encodeURIComponent_Ok s :
  wellFormed s = true → ∃ encoded, encodeURIComponent s = Ok encoded.
Proof.
  intros H. pose proof (encodeURIComponent_wellFormed s) as Hs.
  destruct (encodeURIComponent s) as [e|[]]; [eauto|congruence].
Qed.

Lemma encodeURIComponent_Throw s :
  wellFormed s = false → encodeURIComponent s = Throw URIError.
Proof.
  intros H. pose proof (encodeURIComponent_wellFormed s) as Hs.
  destruct (encodeURIComponent s) as [e|[]]; [congruence|done].
Qed.

(** Every unit of a percent escape is ASCII. *)
Lemma hexDigit_ascii d : (d < 16)%N → (hexDigit d < 128)%N.
Proof. unfold hexDigit. destruct (d <? 10)%N; lia. Qed.

Lemma percent_ascii octet :
  (octet < 256)%N → Forall (λ c, (c < 128)%N) (percent octet).
Proof.
  intros H. unfold percent. repeat constructor.
  - apply hexDigit_ascii. apply N.Div0.div_lt_upper_bound. lia.
  - apply hexDigit_ascii. apply N.mod_lt. lia.
Qed.

Lemma utf8_octets cp :
  (cp < 0x110000)%N → Forall (λ o, (o < 256)%N) (utf8 cp).
Proof.
  intros H. unfold utf8.
  repeat case_match; repeat constructor;
    repeat match goal with
           | H : (_ <? _)%N = true |- _ => apply N.ltb_lt in H
           | H : (_ <? _)%N = false |- _ => apply N.ltb_ge in H
           end;
    repeat match goal with
           | |- context [(?a mod 64)%N] =>
               pose proof (N.mod_lt a 64 ltac:(lia)); generalize dependent (a mod 64)%N; intros
           end;
    try lia.
  - pose proof (N.Div0.div_lt_upper_bound cp 64 32 ltac:(lia)). lia.
  - pose proof (N.Div0.div_lt_upper_bound cp 4096 16 ltac:(lia)). lia.
  - pose proof (N.Div0.div_lt_upper_bound cp 262144 5 ltac:(lia)). lia.
Qed.

Lemma escapeCodePoint_ascii cp :
  (cp < 0x110000)%N → Forall (λ c, (c < 128)%N) (escapeCodePoint cp).
Proof.
  intros H%utf8_octets. unfold escapeCodePoint.
  induction H as [|o os Ho _ IH]; cbn [map concat]; [constructor|].
  apply Forall_app. split; [by apply percent_ascii|done].
Qed.

(** The receiver of [toLowerCase] on line 83 is a string of ASCII units. *)
Lemma encodeURIComponent_ascii s encoded :
  Forall (λ c, (c < 0x10000)%N) s →
  encodeURIComponent s = Ok encoded →
  Forall (λ c, (c < 128)%N) encoded.
Proof.
  remember (length s) as n eqn:Hn.
  revert s encoded Hn. induction (lt_wf n) as [n _ IH]. intros s encoded -> Hs.
  destruct s as [|c rest]; simpl.
  { intros [= <-]. constructor. }
  apply Forall_cons in Hs as [Hc Hrest].
  assert (IHrest : ∀ r, encodeURIComponent rest = Ok r → Forall (λ c, (c < 128)%N) r).
  { intros r. apply (IH (length rest)); simpl; [lia|done|done]. }
  destruct (uriUnescaped c) eqn:Hu.
  - destruct (encodeURIComponent rest) as [r|]; simpl; [|done].
    intros [= <-]. constructor; [by apply uriUnescaped_ascii|by apply IHrest].
  - destruct (isLeadingSurrogate c) eqn:Hlead.
    + destruct rest as [|d rest']; [done|].
      destruct (isTrailingSurrogate d) eqn:Htrail; [|done].
      apply Forall_cons in Hrest as [Hd Hrest'].
      specialize (IH (length rest') ltac:(simpl; lia) rest').
      destruct (encodeURIComponent rest') as [r|]; simpl; [|done].
      intros [= <-]. apply Forall_app. split; [|by apply IH].
      apply escapeCodePoint_ascii.
      revert Hlead Htrail. unfold isLeadingSurrogate, isTrailingSurrogate, in_range,
        surrogatePairToCodePoint.
      rewrite !andb_true_iff, !N.leb_le. lia.
    + destruct (isTrailingSurrogate c); [done|].
      destruct (encodeURIComponent rest) as [r|]; simpl; [|done].
      intros [= <-]. apply Forall_app. split; [|by apply IHrest].
      apply escapeCodePoint_ascii. lia.
Qed.

Example encode_cpp :
  encodeURIComponent (lit "C++") = Ok (lit "C%2B%2B").
Proof. reflexivity. Qed.

(** U+00E9 takes two octets, U+1F600 (a surrogate pair) four. *)
Example encode_e_acute :
  encodeURIComponent [0xE9%N] = Ok (lit "%C3%A9").
Proof. reflexivity. Qed.

Example encode_surrogate_pair :
  encodeURIComponent [0xD83D; 0xDE00]%N = Ok (lit "%F0%9F%98%80").
Proof. reflexivity. Qed.

Example encode_lone_surrogate :
  encodeURIComponent (lit "Go" ++ [0xDE00%N]) = Throw URIError.
Proof. reflexivity. Qed.

Lemma generateResources_Throw skill :
  wellFormed skill = false → generateResources skill = Throw URIError.
Proof.
  intros H. unfold generateResources. by rewrite (encodeURIComponent_Throw _ H).
Qed.

(** ** The generators *)

(** C5, as amended.  For every skill name without an unpaired surrogate,
    [generateResources] returns exactly four resources, of types course,
    video, project, article in this order, with the providers Udemy, YouTube,
    GitHub, Google and the durations 20 hours, 2 hours, 10 hours, 30 mins;
    every title contains the raw skill name; the Udemy, YouTube and Google
    links embed [encodeURIComponent skill] as it is, and the GitHub link
    embeds its lowercased form.  For every skill name with an unpaired
    surrogate the call throws a URIError. *)
Theorem generateResources_spec (skill : jsstring) :
  (wellFormed skill = true →
   ∃ encodedSkill rs,
     encodeURIComponent skill = Ok encodedSkill ∧
     generateResources skill = Ok rs ∧
     length rs = 4%nat ∧
     type <$> rs = [course; video; project; article] ∧
     provider <$> rs = [lit "Udemy"; lit "YouTube"; lit "GitHub"; lit "Google"] ∧
     duration <$> rs = [lit "20 hours"; lit "2 hours"; lit "10 hours"; lit "30 mins"] ∧
     Forall (λ r, occurs_in skill (title r)) rs ∧
     link <$> rs =
       [ Some (lit "https://www.udemy.com/courses/search/?q=" ++ encodedSkill);
         Some (lit "https://www.youtube.com/results?search_query="
                 ++ encodedSkill ++ lit "+tutorial");
         Some (lit "https://github.com/topics/" ++ toLowerCase encodedSkill);
         Some (lit "https://www.google.com/search?q="
                 ++ encodedSkill ++ lit "+best+practices+guide") ]) ∧
  (wellFormed skill = false → generateResources skill = Throw URIError).
Proof.
  split; [|apply generateResources_Throw].
  intros [encodedSkill Henc]%encodeURIComponent_Ok.
  unfold generateResources. rewrite Henc. cbn [mbind result_bind].
  eexists _, _. split; [reflexivity|]. split; [reflexivity|].
  split_and!; try reflexivity.
  repeat constructor; cbn [title]; auto with roadmap.
Qed.

(** On "C++" the three search links carry "C%2B%2B" and the GitHub link
    "c%2b%2b"; on "C" followed by a lone low surrogate the call throws. *)
Lemma generateResources_spec_witness :
  wellFormed (lit "C++") = true ∧
  (∃ rs, generateResources (lit "C++") = Ok rs ∧
     length rs = 4%nat ∧
     title <$> rs = [ lit "Complete C++ Masterclass"; lit "C++ Crash Course";
                      lit "Build a C++ Project"; lit "C++ Best Practices Guide" ] ∧
     link <$> rs =
       [ Some (lit "https://www.udemy.com/courses/search/?q=C%2B%2B");
         Some (lit "https://www.youtube.com/results?search_query=C%2B%2B+tutorial");
         Some (lit "https://github.com/topics/c%2b%2b");
         Some (lit "https://www.google.com/search?q=C%2B%2B+best+practices+guide") ]) ∧
  wellFormed (lit "C" ++ [0xDC00%N]) = false ∧
  generateResources (lit "C" ++ [0xDC00%N]) = Throw URIError.
Proof.
  split; [reflexivity|]. split.
  - destruct (proj1 (generateResources_spec (lit "C++")) eq_refl)
      as (encodedSkill & rs & Henc & Hrs & Hlen & _ & _ & _ & _ & Hlink).
    exists rs. split; [exact Hrs|]. split; [exact Hlen|].
    injection Henc as <-. split; [|exact Hlink].
    injection Hrs as <-. reflexivity.
  - split; [reflexivity|].
    exact (proj2 (generateResources_spec (lit "C" ++ [0xDC00%N])) eq_refl).
Defined.

(** C5 as stated fails: on a skill name that is a lone high surrogate the
    call throws a URIError and returns no resources. *)
Lemma generateResources_unpaired_surrogate :
  generateResources [0xD83D%N] = Throw URIError ∧
  ¬ ∃ rs, generateResources [0xD83D%N] = Ok rs ∧ length rs = 4%nat.
Proof.
  split; [reflexivity|]. intros (rs & H & _). discriminate H.
Qed.

(** C6, as amended.  [generateMilestones] returns exactly four strings:
    the fundamentals, exercises, mini-project and real-world milestones in
    this order.  The first, third and fourth contain the skill name; the
    second is the same fixed string for every skill. *)
Theorem generateMilestones_spec (skill : jsstring) :
  length (generateMilestones skill) = 4%nat ∧
  generateMilestones skill !! 0%nat =
    Some (lit "Understand " ++ skill ++ lit " fundamentals and core concepts") ∧
  generateMilestones skill !! 1%nat =
    Some (lit "Complete hands-on exercises and tutorials") ∧
  generateMilestones skill !! 2%nat =
    Some (lit "Build a mini-project using " ++ skill) ∧
  generateMilestones skill !! 3%nat =
    Some (lit "Apply " ++ skill ++ lit " in a real-world scenario") ∧
  (∀ i m, i ≠ 1%nat → generateMilestones skill !! i = Some m → occurs_in skill m).
Proof.
  split_and!; try reflexivity. intros i m Hi.
  destruct i as [|[|[|[|i]]]]; [| congruence | | | discriminate]; intros H.
  - replace m with (lit "Understand " ++ skill ++ lit " fundamentals and core concepts")
      by (apply (inj Some); exact H).
    auto with roadmap.
  - replace m with (lit "Build a mini-project using " ++ skill)
      by (apply (inj Some); exact H).
    auto with roadmap.
  - replace m with (lit "Apply " ++ skill ++ lit " in a real-world scenario")
      by (apply (inj Some); exact H).
    auto with roadmap.
Qed.

Lemma generateMilestones_spec_witness :
  0%nat ≠ 1%nat ∧
  generateMilestones (lit "Go") !! 0%nat
  = Some (lit "Understand Go fundamentals and core concepts") ∧
  occurs_in (lit "Go") (lit "Understand Go fundamentals and core concepts").
Proof.
  destruct (generateMilestones_spec (lit "Go")) as (_ & Hfirst & _ & _ & _ & Hocc).
  split; [discriminate|]. split; [exact Hfirst|].
  apply (Hocc 0%nat); [discriminate|exact Hfirst].
Defined.

(** C6 as stated fails: the second milestone of "Go" does not contain "Go". *)
Lemma generateMilestones_second_is_fixed :
  ∃ m, generateMilestones (lit "Go") !! 1%nat = Some m ∧
       m = lit "Complete hands-on exercises and tutorials" ∧
       ¬ occurs_in (lit "Go") m.
Proof.
  eexists. split; [reflexivity|]. split; [reflexivity|].
  rewrite <- includes_spec. by vm_compute.
Qed.

(** ** The roadmap *)

Section Roadmap.

Variable skillTaxonomy : gmap jsstring Taxonomy.entry.

(** What a step holds when the callback returns. *)
Lemma roadmapStep_Ok name index step :
  roadmapStep skillTaxonomy name index = Ok step →
  skill step = name ∧
  difficulty step = difficulty_of (skillTaxonomy !! name) name ∧
  weeks step = weeks_of (skillTaxonomy !! name) (difficulty step) ∧
  order step = index + 1 ∧
  category step = category_of (skillTaxonomy !! name) ∧
  generateResources name = Ok (resources step) ∧
  milestones step = generateMilestones name.
Proof.
  unfold roadmapStep. destruct (generateResources name) as [rs|e]; [|done].
  cbn [mbind result_bind]. intros [= <-]. done.
Qed.

(** The callback returns exactly on the names [encodeURIComponent] accepts. *)
Lemma roadmapStep_wellFormed name index :
  wellFormed name = true → ∃ step, roadmapStep skillTaxonomy name index = Ok step.
Proof.
  intros [encoded Henc]%encodeURIComponent_Ok.
  unfold roadmapStep, generateResources. rewrite Henc.
  cbn [mbind result_bind]. eauto.
Qed.

Lemma roadmapStep_Throw name index :
  wellFormed name = false → roadmapStep skillTaxonomy name index = Throw URIError.
Proof.
  intros H. unfold roadmapStep. by rewrite (generateResources_Throw _ H).
Qed.

End Roadmap.

Section MapFrom.

Context {A B : Type} (f : A → Z → result B).

Lemma map_from_length index xs ys :
  map_from f index xs = Ok ys → length ys = length xs.
Proof.
  revert index ys. induction xs as [|x xs IH]; intros index ys; simpl.
  - by intros [= <-].
  - destruct (f x index) as [y|]; [|done]. cbn [mbind result_bind].
    destruct (map_from f (index + 1) xs) as [ys'|] eqn:Hys; [|done].
    cbn [mbind result_bind]. intros [= <-]. simpl. f_equal. by eapply IH.
Qed.

(** Element [i] of the result is the callback's value on element [i] of
    the input and on the index [i], counted from the start index. *)
Lemma map_from_lookup index xs ys i y :
  map_from f index xs = Ok ys →
  ys !! i = Some y →
  ∃ x, xs !! i = Some x ∧ f x (index + Z.of_nat i) = Ok y.
Proof.
  revert index ys i. induction xs as [|x xs IH]; intros index ys i; simpl.
  - by intros [= <-].
  - destruct (f x index) as [y0|] eqn:Hy0; [|done]. cbn [mbind result_bind].
    destruct (map_from f (index + 1) xs) as [ys'|] eqn:Hys; [|done].
    cbn [mbind result_bind]. intros [= <-]. destruct i as [|i]; simpl.
    + intros [= <-]. exists x. by rewrite Z.add_0_r.
    + intros Hi. destruct (IH _ _ _ Hys Hi) as (x' & Hx' & Hf).
      exists x'. split; [done|]. rewrite <- Hf. f_equal. lia.
Qed.

Lemma map_from_Ok index xs :
  Forall (λ x, ∀ k, ∃ y, f x k = Ok y) xs → ∃ ys, map_from f index xs = Ok ys.
Proof.
  intros H. revert index. induction H as [|x xs Hx _ IH]; intros index; simpl.
  - eauto.
  - destruct (Hx index) as [y ->]. destruct (IH (index + 1)) as [ys ->].
    cbn [mbind result_bind]. eauto.
Qed.

Lemma map_from_Ok_inv index xs ys :
  map_from f index xs = Ok ys →
  Forall (λ x, ∃ k y, f x k = Ok y) xs.
Proof.
  revert index ys. induction xs as [|x xs IH]; intros index ys; simpl.
  - constructor.
  - destruct (f x index) as [y|] eqn:Hy; [|done]. cbn [mbind result_bind].
    destruct (map_from f (index + 1) xs) as [ys'|] eqn:Hys; [|done].
    intros _. constructor; eauto.
Qed.

End MapFrom.

(** The steps are built exactly when no skill name has an unpaired
    surrogate; otherwise the render throws. *)
Lemma roadmapSteps_Ok_iff (skillTaxonomy : gmap jsstring Taxonomy.entry) job :
  (∃ steps, roadmapSteps skillTaxonomy job = Ok steps) ↔
  Forall (λ name, wellFormed name = true) (missingSkills job).
Proof.
  unfold roadmapSteps, Array_map. split.
  - intros [steps H%map_from_Ok_inv]. eapply Forall_impl; [exact H|].
    intros name (k & step & Hstep). simpl in Hstep.
    destruct (wellFormed name) eqn:Hwf; [done|].
    by rewrite roadmapStep_Throw in Hstep.
  - intros H. apply map_from_Ok. eapply Forall_impl; [exact H|].
    intros name Hwf k. by apply roadmapStep_wellFormed.
Qed.

Lemma roadmapSteps_Throw (skillTaxonomy : gmap jsstring Taxonomy.entry) job :
  Exists (λ name, wellFormed name = false) (missingSkills job) →
  roadmapSteps skillTaxonomy job = Throw URIError.
Proof.
  intros (name & Hin & Hwf)%Exists_exists.
  destruct (roadmapSteps skillTaxonomy job) as [steps|[]] eqn:Hsteps; [|done].
  assert (Forall (λ name, wellFormed name = true) (missingSkills job)) as Hall
    by (apply (proj1 (roadmapSteps_Ok_iff skillTaxonomy job)); eauto).
  rewrite Forall_forall in Hall. specialize (Hall name Hin). congruence.
Qed.

(** C1, as amended.  For every list of skill names without unpaired
    surrogates the steps are built; whenever they are built there is exactly
    one per element of [missingSkills], in the order of the input: the skills
    of the steps are the input list itself (duplicates included), and step
    [i] has [order = i + 1].  When some skill name has an unpaired surrogate
    the derivation throws a URIError and no step list is built. *)
Theorem roadmapSteps_follow_input
    (skillTaxonomy : gmap jsstring Taxonomy.entry) (job : Job.t) :
  (Forall (λ name, wellFormed name = true) (missingSkills job) →
   ∃ steps, roadmapSteps skillTaxonomy job = Ok steps) ∧
  (∀ steps, roadmapSteps skillTaxonomy job = Ok steps →
     length steps = length (missingSkills job) ∧
     skill <$> steps = missingSkills job ∧
     ∀ i step, steps !! i = Some step →
       missingSkills job !! i = Some (skill step) ∧ order step = Z.of_nat i + 1) ∧
  (Exists (λ name, wellFormed name = false) (missingSkills job) →
   roadmapSteps skillTaxonomy job = Throw URIError).
Proof.
  split; [apply roadmapSteps_Ok_iff|]. split; [|apply roadmapSteps_Throw].
  unfold roadmapSteps, Array_map. intros steps Hsteps.
  assert (Hlen : length steps = length (missingSkills job))
    by (by eapply map_from_length).
  assert (Hlookup : ∀ i step, steps !! i = Some step →
            missingSkills job !! i = Some (skill step) ∧ order step = Z.of_nat i + 1).
  { intros i step Hi.
    destruct (map_from_lookup _ _ _ _ _ _ Hsteps Hi) as (name & Hname & Hstep).
    apply roadmapStep_Ok in Hstep as (-> & _ & _ & -> & _). split; [done|lia]. }
  split_and!; [done| |done].
  apply list_eq. intros i. rewrite list_lookup_fmap.
  destruct (steps !! i) as [step|] eqn:Hi; simpl.
  - by destruct (Hlookup i step Hi) as [-> _].
  - symmetry. apply lookup_ge_None. apply lookup_ge_None in Hi. lia.
Qed.

(** Three missing skills, one of them twice: three steps, numbered 1, 2, 3. *)
Lemma roadmapSteps_follow_input_witness :
  ∃ steps,
    roadmapSteps sample_taxonomy
      (job_with (Some [lit "Go"; lit "Kubernetes"; lit "Go"])) = Ok steps ∧
    length steps = 3%nat ∧
    skill <$> steps = [lit "Go"; lit "Kubernetes"; lit "Go"] ∧
    order <$> steps = [1; 2; 3].
Proof.
  pose proof (roadmapSteps_follow_input sample_taxonomy
                (job_with (Some [lit "Go"; lit "Kubernetes"; lit "Go"])))
    as (Hex & Hall & _).
  destruct Hex as [steps Hsteps].
  { repeat constructor. }
  exists steps. split; [exact Hsteps|].
  destruct (Hall steps Hsteps) as (Hlen & Hskill & _).
  split; [exact Hlen|]. split; [exact Hskill|].
  injection Hsteps as <-. reflexivity.
Defined.

(** C1 as stated fails: on the list of "Go" and "Go" followed by a lone low
    surrogate the derivation throws and there is no roadmap, with one step per
    element or otherwise. *)
Lemma roadmapSteps_unpaired_surrogate :
  roadmapSteps sample_taxonomy (job_with (Some [lit "Go"; lit "Go" ++ [0xDE00%N]]))
  = Throw URIError ∧
  ¬ ∃ steps,
      roadmapSteps sample_taxonomy (job_with (Some [lit "Go"; lit "Go" ++ [0xDE00%N]]))
      = Ok steps ∧
      length steps = 2%nat.
Proof.
  split; [reflexivity|]. intros (steps & H & _). discriminate H.
Qed.

(** ** The totals *)

Lemma two_neq_0 : ¬ (2 == 0)%Q.
Proof. discriminate. Qed.

Lemma pow2_pos e : (0 < 2 ^ e)%Q.
Proof. by apply Qpower_0_lt. Qed.

Lemma pow2_inject k : 0 ≤ k → (2 ^ k == inject_Z (2 ^ k))%Q.
Proof. intros Hk. by rewrite (Zpower_Qpower 2 k Hk). Qed.

Lemma pow2_le a b : a ≤ b → (2 ^ a <= 2 ^ b)%Q.
Proof. intros H. by apply Qpower_le_compat_l. Qed.

Lemma binade_spec x :
  ¬ x == 0 → (2 ^ binade x <= Qabs x ∧ Qabs x < 2 ^ (binade x + 1))%Q.
Proof.
  destruct x as [num den]. intros Hx. unfold binade. cbn [Qnum Qden Qabs].
  set (n := Z.abs num). set (d := Z.pos den).
  assert (0 < n) as Hn.
  { subst n. assert (num ≠ 0); [|lia]. intros ->. by apply Hx. }
  assert (0 < d) as Hd by done.
  pose proof (Z.log2_spec n Hn) as [Hn1 Hn2].
  pose proof (Z.log2_spec d Hd) as [Hd1 Hd2].
  pose proof (Z.log2_nonneg n) as Ha. pose proof (Z.log2_nonneg d) as Hb.
  set (a := Z.log2 n) in *. set (b := Z.log2 d) in *.
  assert (Hnd : n # den == inject_Z n / inject_Z d) by apply Qmake_Qdiv.
  assert (0 < inject_Z d)%Q as HdQ by (by rewrite <- (Zlt_Qlt 0)).
  assert (2 ^ a <= inject_Z n)%Q as Hn1Q by (rewrite pow2_inject, <- Zle_Qle; done).
  assert (inject_Z n < 2 ^ (a + 1))%Q as Hn2Q
    by (rewrite pow2_inject, <- Zlt_Qlt; [done|lia]).
  assert (2 ^ b <= inject_Z d)%Q as Hd1Q by (rewrite pow2_inject, <- Zle_Qle; done).
  assert (inject_Z d < 2 ^ (b + 1))%Q as Hd2Q
    by (rewrite pow2_inject, <- Zlt_Qlt; [done|lia]).
  destruct (Qle_bool (2 ^ (a - b)) (n # den)) eqn:Htest.
  - apply Qle_bool_iff in Htest. split; [done|].
    rewrite Hnd. apply Qlt_shift_div_r; [done|].
    assert (2 ^ (a + 1) == 2 ^ (a - b + 1) * 2 ^ b)%Q as Hsplit.
    { rewrite <- Qpower_plus by apply two_neq_0. by replace (a - b + 1 + b) with (a + 1) by lia. }
    pose proof (pow2_pos (a - b + 1)). nra.
  - assert (n # den < 2 ^ (a - b))%Q as Hlt.
    { apply Qnot_le_lt. intros Hle. apply Qle_bool_iff in Hle. congruence. }
    split; [|by replace (a - b - 1 + 1) with (a - b) by lia].
    rewrite Hnd. apply Qle_shift_div_l; [done|].
    assert (2 ^ a == 2 ^ (a - b - 1) * 2 ^ (b + 1))%Q as Hsplit.
    { rewrite <- Qpower_plus by apply two_neq_0. by replace (a - b - 1 + (b + 1)) with a by lia. }
    pose proof (pow2_pos (a - b - 1)). nra.
Qed.

Lemma round64_comp x y : x == y → round64 x = round64 y.
Proof.
  intros H. unfold round64.
  assert (Qeq_bool x 0 = Qeq_bool y 0) as ->.
  { destruct (Qeq_bool y 0) eqn:Hy.
    - apply Qeq_bool_iff. apply Qeq_bool_iff in Hy. by rewrite H.
    - apply not_true_is_false. intros Hx%Qeq_bool_iff.
      apply Qeq_bool_neq in Hy. apply Hy. by rewrite <- H. }
  by rewrite (Qred_complete x y H).
Qed.

Lemma round_half_even_Z r z : r == inject_Z z → round_half_even r = z.
Proof.
  intros H. unfold round_half_even.
  rewrite (Qfloor_comp _ _ H), Qfloor_Z.
  destruct (Qcompare_spec (r - inject_Z z) (1 # 2)) as [Heq|Hlt|Hgt]; [lra|done|lra].
Qed.

Lemma round_half_even_ge_1 r : (1 <= r)%Q → 1 ≤ round_half_even r.
Proof.
  intros H. unfold round_half_even.
  assert (1 ≤ Qfloor r) as Hf.
  { change 1%Q with (inject_Z 1) in H. apply Qfloor_resp_le in H.
    by rewrite Qfloor_Z in H. }
  destruct (r - inject_Z (Qfloor r) ?= 1 # 2)%Q; [destruct (Z.even _)|..]; lia.
Qed.

Lemma ulp_exponent_min x : -1074 ≤ ulp_exponent x.
Proof. unfold ulp_exponent. lia. Qed.

(** An integer below 2^53 is a double. *)
Lemma round64_Z z : 0 ≤ z < 2 ^ 53 → round64 (inject_Z z) == inject_Z z.
Proof.
  intros [Hz0 Hz53]. unfold round64.
  destruct (Qeq_bool (inject_Z z) 0) eqn:Hzero.
  { apply Qeq_bool_iff in Hzero. by rewrite Hzero. }
  apply Qeq_bool_neq in Hzero.
  set (y := Qred (inject_Z z)).
  assert (y == inject_Z z) as Hy by apply Qred_correct.
  assert (¬ y == 0) as Hy0 by (by rewrite Hy).
  assert (0 < z) as Hzpos.
  { assert (z ≠ 0); [|lia]. intros ->. by apply Hzero. }
  destruct (binade_spec y Hy0) as [Hlo _].
  assert (binade y ≤ 52) as Hb.
  { assert (binade y < 53); [|lia].
    apply (Qpower_lt_compat_l_inv 2); [|done].
    eapply Qle_lt_trans; [exact Hlo|].
    rewrite Hy, Qabs_pos by (rewrite <- (Zle_Qle 0); lia).
    rewrite pow2_inject, <- Zlt_Qlt; done. }
  pose proof (ulp_exponent_min y) as Hmin.
  assert (ulp_exponent y ≤ 0) as He by (unfold ulp_exponent; lia).
  set (e := ulp_exponent y) in *.
  assert (2 ^ e * inject_Z (2 ^ (- e)) == 1)%Q as Hinv.
  { rewrite <- pow2_inject by lia. rewrite <- Qpower_plus by apply two_neq_0.
    by replace (e + - e) with 0 by lia. }
  assert (y / 2 ^ e == inject_Z (z * 2 ^ (- e))) as Hscaled.
  { rewrite inject_Z_mult, Hy. pose proof (pow2_pos e).
    apply Qmult_inj_r with (2 ^ e)%Q; [lra|].
    rewrite <- Qmult_assoc, (Qmult_comm (inject_Z (2 ^ (- e)))), Hinv.
    field. lra. }
  rewrite (round_half_even_Z _ _ Hscaled), inject_Z_mult.
  rewrite <- Qmult_assoc, (Qmult_comm (inject_Z (2 ^ (- e)))), Hinv. ring.
Qed.

(** A number of at least 2^-1074 is not rounded to zero. *)
Lemma round64_pos x : (2 ^ (-1074) <= x)%Q → (0 < round64 x)%Q.
Proof.
  intros Hx. pose proof (pow2_pos (-1074)) as Hmin.
  unfold round64. destruct (Qeq_bool x 0) eqn:Hzero.
  { apply Qeq_bool_iff in Hzero. lra. }
  set (y := Qred x).
  assert (y == x) as Hy by apply Qred_correct.
  assert (¬ y == 0) as Hy0 by (rewrite Hy; lra).
  destruct (binade_spec y Hy0) as [Hlo _].
  rewrite Qabs_pos in Hlo by lra.
  set (e := ulp_exponent y).
  pose proof (pow2_pos e) as He.
  assert (2 ^ e <= y)%Q as Hey.
  { subst e. unfold ulp_exponent.
    destruct (Z.max_spec (binade y - 52) (-1074)) as [[_ ->]|[_ ->]]; [lra|].
    eapply Qle_trans; [|exact Hlo]. apply pow2_le. lia. }
  assert (1 <= y / 2 ^ e)%Q as Hscaled by (apply Qle_shift_div_l; lra).
  apply round_half_even_ge_1 in Hscaled.
  apply Qmult_lt_0_compat; [|done]. rewrite <- (Zlt_Qlt 0). lia.
Qed.

(** The least positive double is 2^-1074. *)
Lemma isDouble_pos x : isDouble x = true → (0 < x)%Q → (2 ^ (-1074) <= x)%Q.
Proof.
  unfold isDouble. intros Hd%Qeq_bool_iff Hpos. unfold round64 in Hd.
  destruct (Qeq_bool x 0) eqn:Hzero; [lra|].
  set (y := Qred x) in *. set (e := ulp_exponent y) in *.
  set (m := round_half_even (y / 2 ^ e)) in *.
  pose proof (pow2_pos e) as He. pose proof (ulp_exponent_min y) as Hmin. fold e in Hmin.
  assert (0 < m) as Hm.
  { destruct (Z.lt_ge_cases 0 m) as [|Hle]; [done|].
    rewrite Zle_Qle in Hle. change (inject_Z 0) with 0%Q in Hle. nra. }
  assert (1 <= inject_Z m)%Q as HmQ by (rewrite <- (Zle_Qle 1); lia).
  pose proof (pow2_le (-1074) e Hmin). nra.
Qed.

Lemma Number_add_Z x y a b :
  x == inject_Z a → y == inject_Z b → 0 ≤ a + b < 2 ^ 53 →
  Number_add x y == inject_Z (a + b).
Proof.
  intros Hx Hy Hab. unfold Number_add.
  rewrite (round64_comp (x + y) (inject_Z (a + b))).
  - by apply round64_Z.
  - by rewrite Hx, Hy, inject_Z_plus.
Qed.

Lemma Qsum_nonneg (xs : list Q) : Forall (λ x, 0 <= x)%Q xs → (0 <= Qsum xs)%Q.
Proof.
  unfold Qsum. induction 1 as [|x xs Hx _ IH]; cbn [foldr]; lra.
Qed.

Lemma Number_isInteger_Z (x : Q) :
  Number_isInteger x = true → (0 <= x)%Q → ∃ z, 0 ≤ z ∧ x == inject_Z z.
Proof.
  unfold Number_isInteger. intros Hint%Qeq_bool_iff Hx.
  exists (Qfloor x). split; [|done].
  change 0%Q with (inject_Z 0) in Hx. apply Qfloor_resp_le in Hx.
  by rewrite Qfloor_Z in Hx.
Qed.

(** Whole weeks that add up to less than 2^53 are added without rounding. *)
Lemma totalWeeks_from_whole (steps : list RoadmapStep) (acc : Q) (a : Z) :
  acc == inject_Z a → 0 ≤ a →
  Forall (λ step, Number_isInteger (weeks step) = true ∧ (0 <= weeks step)%Q) steps →
  (acc + Qsum (weeks <$> steps) < inject_Z (2 ^ 53))%Q →
  fold_left (λ acc step, Number_add acc (weeks step)) steps acc
  == acc + Qsum (weeks <$> steps).
Proof.
  intros Hacc Ha Hwhole. revert acc a Hacc Ha.
  induction Hwhole as [|step steps [Hint Hnn] Hrest IH]; intros acc a Hacc Ha.
  - intros _. change (Qsum (weeks <$> [])) with 0%Q. cbn [fold_left]. ring.
  - change (Qsum (weeks <$> step :: steps))
      with (weeks step + Qsum (weeks <$> steps))%Q.
    cbn [fold_left]. intros Hbound.
    destruct (Number_isInteger_Z _ Hint Hnn) as (z & Hz & Hw).
    assert (0 <= Qsum (weeks <$> steps))%Q as Hsum.
    { apply Qsum_nonneg, Forall_fmap. eapply Forall_impl; [exact Hrest|].
      by intros ? [_ ?]. }
    assert (a + z < 2 ^ 53) as Haz.
    { rewrite Zlt_Qlt, inject_Z_plus, <- Hacc, <- Hw. lra. }
    pose proof (Number_add_Z _ _ _ _ Hacc Hw ltac:(lia)) as Hadd.
    rewrite (IH _ (a + z) Hadd ltac:(lia)).
    + rewrite Hadd, inject_Z_plus, Hacc, Hw. ring.
    + rewrite Hadd, inject_Z_plus, <- Hacc, <- Hw. lra.
Qed.

Lemma totalWeeks_whole (steps : list RoadmapStep) :
  Forall (λ step, Number_isInteger (weeks step) = true ∧ (0 <= weeks step)%Q) steps →
  (Qsum (weeks <$> steps) < inject_Z (2 ^ 53))%Q →
  totalWeeks steps == Qsum (weeks <$> steps).
Proof.
  intros Hwhole Hbound. unfold totalWeeks.
  rewrite (totalWeeks_from_whole steps 0 0); [ring|reflexivity|done|done|lra].
Qed.

Lemma totalWeeks_snoc (steps : list RoadmapStep) (step : RoadmapStep) :
  totalWeeks (steps ++ [step]) = Number_add (totalWeeks steps) (weeks step).
Proof. unfold totalWeeks. by rewrite fold_left_app. Qed.

Lemma Math_ceil_least (x : Q) :
  ∃ m : Z, Math_ceil x = inject_Z m ∧ (x <= inject_Z m)%Q ∧ (inject_Z (m - 1) < x)%Q.
Proof.
  exists (Qceiling x). split; [done|]. split; [apply Qle_ceiling|apply Qceiling_lt].
Qed.

(** C2, as amended.  [totalWeeks] is the sum of the weeks of the steps
    taken from left to right in double-precision arithmetic: 0 for no step,
    and for one more step the sum so far plus its weeks, rounded to the
    nearest double.  It is the exact sum whenever the weeks are whole
    numbers adding up to less than 2^53.  [totalMonths] is the ceiling of
    [totalWeeks / 4]: the least integer [m] with [totalWeeks <= 4 * m].
    With an empty [missingSkills] the step list is empty and both totals
    are 0. *)
Theorem totals_spec
    (skillTaxonomy : gmap jsstring Taxonomy.entry) (steps : list RoadmapStep) :
  totalWeeks [] = 0%Q ∧
  (∀ step, totalWeeks (steps ++ [step])
           = round64 (totalWeeks steps + weeks step)) ∧
  (Forall (λ step, Number_isInteger (weeks step) = true ∧ (0 <= weeks step)%Q) steps →
   (Qsum (weeks <$> steps) < inject_Z (2 ^ 53))%Q →
   totalWeeks steps == Qsum (weeks <$> steps)) ∧
  totalMonths steps = inject_Z (Qceiling (totalWeeks steps / 4)) ∧
  (∃ m : Z, totalMonths steps = inject_Z m ∧
            (totalWeeks steps <= 4 * inject_Z m)%Q ∧
            (4 * inject_Z (m - 1) < totalWeeks steps)%Q) ∧
  (∀ job, missingSkills job = [] → roadmapSteps skillTaxonomy job = Ok []) ∧
  totalMonths [] = 0%Q.
Proof.
  split_and!; try reflexivity.
  - apply totalWeeks_snoc.
  - apply totalWeeks_whole.
  - destruct (Math_ceil_least (totalWeeks steps / 4)) as (m & Hm & Hle & Hlt).
    exists m. split; [exact Hm|].
    assert (totalWeeks steps == 4 * (totalWeeks steps / 4)) as -> by (field; done).
    split.
    + apply Qmult_le_l; done.
    + apply Qmult_lt_l; done.
  - intros job Hnil. unfold roadmapSteps, Array_map. by rewrite Hnil.
Qed.

(** Two missing skills of one and two weeks: three weeks, added without
    rounding, and one month. *)
Lemma totals_spec_witness :
  ∃ steps,
    roadmapSteps empty_taxonomy (job_with (Some [lit "Go"; lit "Python"])) = Ok steps ∧
    weeks <$> steps = [1%Q; 2%Q] ∧
    totalWeeks steps == Qsum (weeks <$> steps) ∧
    totalWeeks steps == 3 ∧
    roadmapSteps empty_taxonomy (job_with (Some [])) = Ok [].
Proof.
  eexists. split; [reflexivity|]. split; [reflexivity|].
  match goal with
  | |- totalWeeks ?steps == _ ∧ _ =>
      destruct (totals_spec empty_taxonomy steps) as (_ & _ & Hexact & _ & _ & Hempty & _)
  end.
  split.
  - apply Hexact; [|by vm_compute].
    repeat (constructor; [split; by vm_compute|]). constructor.
  - split; [vm_compute; reflexivity|]. by apply Hempty.
Defined.

(** C2 as stated fails: one month and 2^-62 of a month, both doubles, give
    the weeks 4 and 2^-60; their sum in doubles is 4, not 4 + 2^-60, and the
    months are 1 where the ceiling of a quarter of the exact sum is 2. *)
Lemma totalWeeks_is_rounded :
  isDouble (Taxonomy.learningTimeMonths month_entry) = true ∧
  isDouble (Taxonomy.learningTimeMonths instant_entry) = true ∧
  ∃ steps,
    roadmapSteps rounding_taxonomy (job_with (Some [lit "SQL"; lit "Git"])) = Ok steps ∧
    weeks <$> steps = [(1 * 4)%Q; (1 / 2 ^ 62 * 4)%Q] ∧
    totalWeeks steps == 4 ∧
    Qsum (weeks <$> steps) == 4 + 1 / 2 ^ 60 ∧
    ¬ totalWeeks steps == Qsum (weeks <$> steps) ∧
    totalMonths steps == 1 ∧
    Math_ceil (Qsum (weeks <$> steps) / 4) == 2.
Proof.
  split; [by vm_compute|]. split; [by vm_compute|].
  eexists. split; [reflexivity|]. split; [reflexivity|].
  split_and!; by vm_compute.
Qed.

(** The same with the doubles written 0.1, 0.1 and 0.8: the weeks add up to
    4 in doubles and the months are 1, while the exact sum is above 4. *)
Example totalWeeks_decimals :
  ∃ steps,
    roadmapSteps decimal_taxonomy
      (job_with (Some [lit "HTML"; lit "CSS"; lit "React"])) = Ok steps ∧
    totalWeeks steps == 4 ∧
    totalMonths steps == 1 ∧
    (4 < Qsum (weeks <$> steps))%Q.
Proof.
  eexists. split; [reflexivity|]. split_and!; by vm_compute.
Qed.

(** ** The classifier *)

Lemma number_truthy_pos (x : Q) : (0 < x)%Q → number_truthy x = true.
Proof.
  intros H. unfold number_truthy. apply negb_true_iff, not_true_is_false.
  intros Heq%Qeq_bool_iff. rewrite Heq in H. by apply Qlt_irrefl in H.
Qed.

(** A number is an integer exactly when [Math.ceil] leaves it alone. *)
Lemma Number_isInteger_ceil (x : Q) :
  Number_isInteger x = true ↔ x == Math_ceil x.
Proof.
  unfold Number_isInteger, Math_ceil. rewrite Qeq_bool_iff. split; intros H.
  - rewrite (Qceiling_comp _ _ H), Qceiling_Z. exact H.
  - rewrite (Qfloor_comp _ _ H), Qfloor_Z. exact H.
Qed.

(** C3, as amended.  For a skill with a taxonomy entry whose
    [learningTimeMonths] is positive, the difficulty is the entry's and the
    weeks are [learningTimeMonths * 4] with no rounding, which is
    [Math.ceil (learningTimeMonths * 4)] exactly when that product is an
    integer; the category is the entry's when that is a non-empty string and
    "General" when it is empty.  An emitted step carries these values. *)
Theorem taxonomy_classification
    (skillTaxonomy : gmap jsstring Taxonomy.entry)
    (name : jsstring) (entry : Taxonomy.entry) :
  skillTaxonomy !! name = Some entry →
  (0 < Taxonomy.learningTimeMonths entry)%Q →
  let taxonomy := skillTaxonomy !! name in
  let d := difficulty_of taxonomy name in
  let w := weeks_of taxonomy d in
  d = Taxonomy.difficulty entry ∧
  w = (Taxonomy.learningTimeMonths entry * 4)%Q ∧
  (w == Math_ceil (Taxonomy.learningTimeMonths entry * 4) ↔
   Number_isInteger (Taxonomy.learningTimeMonths entry * 4) = true) ∧
  (Taxonomy.category entry ≠ [] → category_of taxonomy = Taxonomy.category entry) ∧
  (Taxonomy.category entry = [] → category_of taxonomy = lit "General") ∧
  (∀ index step, roadmapStep skillTaxonomy name index = Ok step →
     difficulty step = d ∧ weeks step = w ∧ category step = category_of taxonomy).
Proof.
  intros Hentry Hpos. rewrite Hentry. cbn zeta.
  assert (Hw : weeks_of (Some entry) (difficulty_of (Some entry) name)
               = (Taxonomy.learningTimeMonths entry * 4)%Q).
  { unfold weeks_of. by rewrite (number_truthy_pos _ Hpos). }
  split_and!.
  - reflexivity.
  - exact Hw.
  - rewrite Hw. symmetry. apply Number_isInteger_ceil.
  - unfold category_of, string_or. by destruct (Taxonomy.category entry).
  - unfold category_of. by intros ->.
  - intros index step Hstep.
    apply roadmapStep_Ok in Hstep as (_ & Hd & Hweeks & _ & Hcat & _).
    rewrite Hentry in Hd, Hweeks, Hcat. by rewrite Hweeks, Hd.
Qed.

(** The specification's example: Kubernetes, Hard, two months, DevOps gives
    Hard, eight weeks, DevOps. *)
Lemma taxonomy_classification_witness :
  ∃ step,
    roadmapStep sample_taxonomy (lit "Kubernetes") 0 = Ok step ∧
    difficulty step = Hard ∧
    weeks step == 8 ∧
    weeks step == Math_ceil (Taxonomy.learningTimeMonths kubernetes_entry * 4) ∧
    category step = lit "DevOps".
Proof.
  destruct (roadmapStep_wellFormed sample_taxonomy (lit "Kubernetes") 0 eq_refl)
    as [step Hstep].
  exists step. split; [exact Hstep|].
  destruct (taxonomy_classification sample_taxonomy (lit "Kubernetes")
              kubernetes_entry eq_refl eq_refl)
    as (Hd & Hw & Hceil & Hcat & _ & Hemitted).
  destruct (Hemitted 0 step Hstep) as (-> & -> & ->).
  split; [exact Hd|]. split; [rewrite Hw; reflexivity|].
  split; [apply Hceil; reflexivity|].
  apply Hcat. discriminate.
Defined.

(** C3 as stated fails: with the entry Hard, 3/8 of a month, empty category,
    the step has a week and a half where rounding up gives two, and the
    category "General" where the entry has the empty string. *)
Lemma taxonomy_weeks_not_rounded :
  short_taxonomy !! lit "Kubernetes" = Some short_entry ∧
  (0 < Taxonomy.learningTimeMonths short_entry)%Q ∧
  ∃ step,
    roadmapStep short_taxonomy (lit "Kubernetes") 0 = Ok step ∧
    weeks step == 3 # 2 ∧
    Math_ceil (Taxonomy.learningTimeMonths short_entry * 4) == 2 ∧
    ¬ weeks step == Math_ceil (Taxonomy.learningTimeMonths short_entry * 4) ∧
    category step = lit "General" ∧
    category step ≠ Taxonomy.category short_entry.
Proof.
  split; [reflexivity|]. split; [reflexivity|].
  eexists. split; [reflexivity|]. split_and!; try reflexivity; discriminate.
Qed.

(** C4.  For a skill without a taxonomy entry the difficulty depends on
    the length of the name alone: Hard above 8, Medium from 6 to 8, Easy up
    to 5; and the weeks are 4, 2 and 1 respectively.  An emitted step carries
    these values. *)
Theorem fallback_classification
    (skillTaxonomy : gmap jsstring Taxonomy.entry) (name : jsstring) :
  skillTaxonomy !! name = None →
  let taxonomy := skillTaxonomy !! name in
  let d := difficulty_of taxonomy name in
  let w := weeks_of taxonomy d in
  (js_length name > 8 → d = Hard ∧ w = 4%Q) ∧
  (6 ≤ js_length name ≤ 8 → d = Medium ∧ w = 2%Q) ∧
  (js_length name ≤ 5 → d = Easy ∧ w = 1%Q) ∧
  (∀ other, skillTaxonomy !! other = None → js_length other = js_length name →
     difficulty_of (skillTaxonomy !! other) other = d) ∧
  (∀ index step, roadmapStep skillTaxonomy name index = Ok step →
     difficulty step = d ∧ weeks step = w).
Proof.
  intros Hnone. rewrite Hnone. cbn zeta. unfold difficulty_of, weeks_of.
  split_and!.
  - intros H. destruct (Z.gtb_spec (js_length name) 8); [done|lia].
  - intros H. destruct (Z.gtb_spec (js_length name) 8); [lia|].
    destruct (Z.gtb_spec (js_length name) 5); [done|lia].
  - intros H. destruct (Z.gtb_spec (js_length name) 8); [lia|].
    destruct (Z.gtb_spec (js_length name) 5); [lia|done].
  - intros other -> ->. reflexivity.
  - intros index step Hstep.
    apply roadmapStep_Ok in Hstep as (_ & Hd & Hweeks & _).
    rewrite Hnone in Hd, Hweeks. by rewrite Hweeks, Hd.
Qed.

(** "Databases" has nine characters, "Python" six and "Go" two. *)
Lemma fallback_classification_witness :
  (difficulty_of (empty_taxonomy !! lit "Databases") (lit "Databases") = Hard ∧
   weeks_of (empty_taxonomy !! lit "Databases")
     (difficulty_of (empty_taxonomy !! lit "Databases") (lit "Databases")) = 4%Q) ∧
  (difficulty_of (empty_taxonomy !! lit "Python") (lit "Python") = Medium ∧
   weeks_of (empty_taxonomy !! lit "Python")
     (difficulty_of (empty_taxonomy !! lit "Python") (lit "Python")) = 2%Q) ∧
  (difficulty_of (empty_taxonomy !! lit "Go") (lit "Go") = Easy ∧
   weeks_of (empty_taxonomy !! lit "Go")
     (difficulty_of (empty_taxonomy !! lit "Go") (lit "Go")) = 1%Q).
Proof.
  pose proof (fallback_classification empty_taxonomy (lit "Databases") eq_refl)
    as (Hhard & _).
  pose proof (fallback_classification empty_taxonomy (lit "Python") eq_refl)
    as (_ & Hmedium & _).
  pose proof (fallback_classification empty_taxonomy (lit "Go") eq_refl)
    as (_ & _ & Heasy & _).
  split; [|split].
  - apply Hhard. reflexivity.
  - apply Hmedium. split; discriminate.
  - apply Heasy. discriminate.
Defined.

Lemma fallback_weeks_positive_integer (d : Difficulty) :
  (0 < fallback_weeks d)%Q ∧ Number_isInteger (fallback_weeks d) = true.
Proof. by destruct d. Qed.

(** C7, as amended.  When every [learningTimeMonths] of the taxonomy is
    positive, every step of a built roadmap has positive weeks.  For a skill
    without an entry the weeks are an integer; for a skill with an entry they
    are [learningTimeMonths * 4], an integer exactly when that product is. *)
Theorem weeks_positive
    (skillTaxonomy : gmap jsstring Taxonomy.entry) (job : Job.t)
    (steps : list RoadmapStep) :
  (∀ name entry, skillTaxonomy !! name = Some entry →
     (0 < Taxonomy.learningTimeMonths entry)%Q) →
  roadmapSteps skillTaxonomy job = Ok steps →
  ∀ step, step ∈ steps →
    (0 < weeks step)%Q ∧
    (skillTaxonomy !! skill step = None → Number_isInteger (weeks step) = true) ∧
    (∀ entry, skillTaxonomy !! skill step = Some entry →
       weeks step = (Taxonomy.learningTimeMonths entry * 4)%Q ∧
       Number_isInteger (weeks step)
       = Number_isInteger (Taxonomy.learningTimeMonths entry * 4)).
Proof.
  intros Hpos Hsteps step [i Hi]%list_elem_of_lookup.
  unfold roadmapSteps, Array_map in Hsteps.
  destruct (map_from_lookup _ _ _ _ _ _ Hsteps Hi) as (name & _ & Hstep).
  apply roadmapStep_Ok in Hstep as (Hname & _ & Hweeks & _).
  rewrite Hname, Hweeks. clear Hweeks.
  destruct (skillTaxonomy !! name) as [entry|] eqn:Hentry; cbn [weeks_of].
  - specialize (Hpos name entry Hentry).
    rewrite (number_truthy_pos _ Hpos). split_and!.
    + by apply Qmult_lt_0_compat.
    + discriminate.
    + by intros ? [= <-].
  - split_and!; [apply fallback_weeks_positive_integer
                |intros _; apply fallback_weeks_positive_integer
                |discriminate].
Qed.

Lemma sample_taxonomy_positive name entry :
  sample_taxonomy !! name = Some entry → (0 < Taxonomy.learningTimeMonths entry)%Q.
Proof. unfold sample_taxonomy. by intros [_ <-]%lookup_singleton_Some. Qed.

Lemma short_taxonomy_positive name entry :
  short_taxonomy !! name = Some entry → (0 < Taxonomy.learningTimeMonths entry)%Q.
Proof. unfold short_taxonomy. by intros [_ <-]%lookup_singleton_Some. Qed.

(** Kubernetes from the sample taxonomy and Go by its length: eight weeks
    and one week. *)
Lemma weeks_positive_witness :
  ∃ steps,
    roadmapSteps sample_taxonomy (job_with (Some [lit "Kubernetes"; lit "Go"]))
    = Ok steps ∧
    weeks <$> steps = [(2 * 4)%Q; 1%Q] ∧
    ∀ step, step ∈ steps → (0 < weeks step)%Q.
Proof.
  destruct (proj2 (roadmapSteps_Ok_iff sample_taxonomy
                     (job_with (Some [lit "Kubernetes"; lit "Go"]))))
    as [steps Hsteps].
  { repeat constructor. }
  exists steps. split; [exact Hsteps|]. split.
  - injection Hsteps as <-. reflexivity.
  - intros step Hin.
    apply (weeks_positive sample_taxonomy _ steps sample_taxonomy_positive Hsteps step Hin).
Defined.

(** C7 as stated fails: every learning time of the taxonomy is positive,
    and the one step has a week and a half. *)
Lemma weeks_not_an_integer :
  (∀ name entry, short_taxonomy !! name = Some entry →
     (0 < Taxonomy.learningTimeMonths entry)%Q) ∧
  ∃ step,
    roadmapSteps short_taxonomy (job_with (Some [lit "Kubernetes"])) = Ok [step] ∧
    weeks step == 3 # 2 ∧
    Number_isInteger (weeks step) = false.
Proof.
  split; [exact short_taxonomy_positive|].
  eexists. split; [reflexivity|]. split; reflexivity.
Qed.

(** C10.  A job whose [missingSkills] is absent is handled as one whose
    list is empty: no step, no throw, and both totals 0. *)
Theorem missingSkills_absent
    (skillTaxonomy : gmap jsstring Taxonomy.entry) (job : Job.t) :
  Job.missingSkills job = None →
  missingSkills job = [] ∧
  roadmapSteps skillTaxonomy job = Ok [] ∧
  totalWeeks [] = 0%Q ∧
  totalMonths [] = 0%Q ∧
  (∀ job', Job.missingSkills job' = Some [] →
     missingSkills job = missingSkills job' ∧
     roadmapSteps skillTaxonomy job = roadmapSteps skillTaxonomy job').
Proof.
  intros Habsent. unfold roadmapSteps, missingSkills. rewrite Habsent.
  split_and!; try reflexivity.
  intros job' ->. done.
Qed.

Lemma missingSkills_absent_witness :
  missingSkills (job_with None) = [] ∧
  roadmapSteps sample_taxonomy (job_with None) = Ok [] ∧
  roadmapSteps sample_taxonomy (job_with None)
  = roadmapSteps sample_taxonomy (job_with (Some [])).
Proof.
  destruct (missingSkills_absent sample_taxonomy (job_with None) eq_refl)
    as (Hnil & Hsteps & _ & _ & Hsame).
  split; [exact Hnil|]. split; [exact Hsteps|].
  apply (Hsame (job_with (Some [])) eq_refl).
Defined.

(** ** The view state *)

Section ViewState.

(** [roadmapSteps.length] *)
Variable n : Z.

Lemma fire_StartJourney st st' :
  fire n st StartJourney = Some st' →
  n > 0 ∧ mode n st = Overview ∧ st' = setShowLearningPath true st.
Proof.
  unfold fire. destruct (mode n st); [|done].
  destruct (Z.gtb_spec n 0); [|done]. intros [= <-]. split_and!; [lia|done..].
Qed.

Lemma mode_LearningPath st :
  mode n st = LearningPath ↔ showLearningPath st = true ∧ n > 0.
Proof.
  unfold mode. destruct (showLearningPath st), (Z.gtb_spec n 0); simpl;
    split; intros Hm;
    first [ done | by destruct Hm | split; [done|lia] | destruct Hm; lia ].
Qed.

(** No control moves the index out of the range of the steps. *)
Lemma dispatch_index_in_range st ev :
  0 ≤ activeSkillIndex st ≤ n - 1 →
  0 ≤ activeSkillIndex (dispatch n st ev) ≤ n - 1.
Proof.
  intros H. unfold dispatch, fire.
  destruct (mode n st), ev; simpl; try done.
  - destruct (Z.gtb_spec n 0); simpl; done.
  - destruct (Z.leb_spec 0 idx), (Z.ltb_spec idx n); simpl; lia.
  - destruct (Z.eqb_spec (activeSkillIndex st) 0); simpl; lia.
  - destruct (Z.ltb_spec (activeSkillIndex st) (n - 1)); simpl; lia.
Qed.

Lemma run_index_in_range st evs :
  0 ≤ activeSkillIndex st ≤ n - 1 →
  0 ≤ activeSkillIndex (run n st evs) ≤ n - 1.
Proof.
  unfold run. revert st. induction evs as [|ev evs IH]; intros st H; simpl.
  - done.
  - by apply IH, dispatch_index_in_range.
Qed.

(** With no step, nothing leaves the overview. *)
Lemma run_empty_roadmap st evs : n ≤ 0 → run n st evs = st.
Proof.
  intros Hn. unfold run. induction evs as [|ev evs IH]; simpl; [done|].
  assert (dispatch n st ev = st) as ->; [|done].
  unfold dispatch, fire, mode.
  destruct (Z.gtb_spec n 0); [lia|]. rewrite andb_false_r. by destruct ev.
Qed.

End ViewState.

(** C8, as amended.  The step from the overview to the learning path
    fires only for a non-empty roadmap, and with an empty roadmap no sequence
    of actions leaves the overview.  The step leaves [activeSkillIndex] as it
    is: entered from the initial state the index is 0, and after going back
    and entering again the state is the one that was left. *)
Theorem overview_to_learning_path (n : Z) :
  (∀ st st', fire n st StartJourney = Some st' →
     n > 0 ∧ mode n st = Overview ∧ mode n st' = LearningPath ∧
     activeSkillIndex st' = activeSkillIndex st) ∧
  (n ≤ 0 → ∀ st evs,
     fire n st StartJourney = None ∧ mode n (run n st evs) = Overview) ∧
  (n > 0 → ∃ st', fire n initialState StartJourney = Some st' ∧
                  mode n st' = LearningPath ∧ activeSkillIndex st' = 0) ∧
  (∀ st, mode n st = LearningPath →
     mode n (dispatch n st BackToOverview) = Overview ∧
     activeSkillIndex (dispatch n st BackToOverview) = activeSkillIndex st ∧
     run n st [BackToOverview; StartJourney] = st).
Proof.
  split_and!.
  - intros st st' (Hn & Hmode & ->)%fire_StartJourney. split_and!; try done.
    apply mode_LearningPath. done.
  - intros Hn st evs. unfold fire, mode.
    destruct (Z.gtb_spec n 0); [lia|]. rewrite !andb_false_r. done.
  - intros Hn. unfold fire, mode. simpl.
    destruct (Z.gtb_spec n 0); [|lia]. eexists. split; [done|]. simpl.
    destruct (Z.gtb_spec n 0); [done|lia].
  - intros [show i] [Hshow Hn]%mode_LearningPath. simpl in Hshow. subst show.
    unfold run, dispatch, fire, mode. simpl.
    destruct (Z.gtb_spec n 0); [|lia]. simpl.
    destruct (Z.gtb_spec n 0); [|lia]. done.
Qed.

(** In a roadmap of three steps the journey starts on the first one. *)
Lemma overview_to_learning_path_witness :
  3 > 0 ∧
  fire 3 initialState StartJourney
  = Some {| showLearningPath := true; activeSkillIndex := 0 |} ∧
  mode 3 {| showLearningPath := true; activeSkillIndex := 0 |} = LearningPath.
Proof.
  destruct (overview_to_learning_path 3) as (Hfire & _).
  destruct (Hfire initialState {| showLearningPath := true; activeSkillIndex := 0 |}
              eq_refl) as (Hn & _ & Hmode & _).
  split; [exact Hn|]. split; [reflexivity|exact Hmode].
Defined.

(** C8 as stated fails: start, go to the second step, go back, start
    again; the learning path is entered with index 1. *)
Lemma reentry_keeps_index :
  mode 3 (run 3 initialState [StartJourney; NextSkill; BackToOverview]) = Overview ∧
  ∃ st',
    fire 3 (run 3 initialState [StartJourney; NextSkill; BackToOverview]) StartJourney
    = Some st' ∧
    mode 3 st' = LearningPath ∧
    activeSkillIndex st' = 1 ∧
    activeSkillIndex st' ≠ 0.
Proof.
  split; [reflexivity|]. eexists. split; [reflexivity|]. split_and!; done.
Qed.

(** C9.  In the learning path, with the index in range, the right-hand
    button moves the index to [min (index + 1) (n - 1)], the left-hand one to
    [max (index - 1) 0], and the sidebar button of a step in range to that
    step; on the first step going back changes nothing, on the last step
    going on changes nothing, and no sequence of actions takes the index out
    of range. *)
Theorem navigation_clamped (n : Z) (st : ViewState) :
  mode n st = LearningPath →
  0 ≤ activeSkillIndex st ≤ n - 1 →
  activeSkillIndex (dispatch n st NextSkill)
  = Z.min (activeSkillIndex st + 1) (n - 1) ∧
  activeSkillIndex (dispatch n st PreviousSkill)
  = Z.max (activeSkillIndex st - 1) 0 ∧
  (∀ idx, 0 ≤ idx ≤ n - 1 →
     dispatch n st (SelectStep idx) = setActiveSkillIndex idx st) ∧
  (activeSkillIndex st = 0 → dispatch n st PreviousSkill = st) ∧
  (activeSkillIndex st = n - 1 → dispatch n st NextSkill = st) ∧
  (∀ evs, 0 ≤ activeSkillIndex (run n st evs) ≤ n - 1).
Proof.
  intros Hmode Hrange. unfold dispatch, fire. rewrite Hmode. split_and!.
  - destruct (Z.ltb_spec (activeSkillIndex st) (n - 1)); simpl; lia.
  - destruct (Z.eqb_spec (activeSkillIndex st) 0); simpl; lia.
  - intros idx Hidx.
    destruct (Z.leb_spec 0 idx), (Z.ltb_spec idx n); simpl; try done; lia.
  - intros ->. done.
  - intros ->. by rewrite Z.ltb_irrefl.
  - intros evs. by apply run_index_in_range.
Qed.

(** Three steps, the second one active: on to the third, back to the first,
    and the sidebar picks any of them. *)
Lemma navigation_clamped_witness :
  activeSkillIndex
    (dispatch 3 {| showLearningPath := true; activeSkillIndex := 1 |} NextSkill) = 2 ∧
  activeSkillIndex
    (dispatch 3 {| showLearningPath := true; activeSkillIndex := 1 |} PreviousSkill) = 0 ∧
  activeSkillIndex
    (dispatch 3 {| showLearningPath := true; activeSkillIndex := 2 |} NextSkill) = 2 ∧
  activeSkillIndex
    (dispatch 3 {| showLearningPath := true; activeSkillIndex := 0 |} PreviousSkill) = 0.
Proof.
  destruct (navigation_clamped 3 {| showLearningPath := true; activeSkillIndex := 1 |}
              eq_refl ltac:(simpl; lia)) as (Hnext & Hprev & _).
  destruct (navigation_clamped 3 {| showLearningPath := true; activeSkillIndex := 2 |}
              eq_refl ltac:(simpl; lia)) as (_ & _ & _ & _ & Hlast & _).
  destruct (navigation_clamped 3 {| showLearningPath := true; activeSkillIndex := 0 |}
              eq_refl ltac:(simpl; lia)) as (_ & _ & _ & Hfirst & _).
  split; [exact Hnext|]. split; [exact Hprev|].
  split; [by rewrite Hlast|by rewrite Hfirst].
Defined.

(** * Further properties *)

(** ** The encoder *)

Lemma encodeURIComponent_Encoded s e :
  encodeURIComponent s = Ok e ↔ Encoded s e.
Proof.
  split.
  - remember (length s) as n eqn:Hn.
    revert s e Hn. induction (lt_wf n) as [n _ IH]. intros s e ->.
    destruct s as [|c rest]; simpl.
    { intros [= <-]. constructor. }
    destruct (uriUnescaped c) eqn:Hu.
    + destruct (encodeURIComponent rest) as [r|] eqn:Hr; simpl; [|done].
      intros [= <-]. constructor; [done|].
      apply (IH (length rest)); simpl; [lia|done|done].
    + destruct (isLeadingSurrogate c) eqn:Hlead.
      * destruct rest as [|d rest']; [done|].
        destruct (isTrailingSurrogate d) eqn:Htrail; [|done].
        destruct (encodeURIComponent rest') as [r|] eqn:Hr; simpl; [|done].
        intros [= <-]. constructor; [done..|].
        apply (IH (length rest')); simpl; [lia|done|done].
      * destruct (isTrailingSurrogate c) eqn:Htrail; [done|].
        destruct (encodeURIComponent rest) as [r|] eqn:Hr; simpl; [|done].
        intros [= <-]. constructor; [done..|].
        apply (IH (length rest)); simpl; [lia|done|done].
  - induction 1 as [|c s e Hu _ IH|c d s e Hu Hlead Htrail _ IH|c s e Hu Hlead Htrail _ IH];
      simpl.
    + done.
    + by rewrite Hu, IH.
    + by rewrite Hu, Hlead, Htrail, IH.
    + by rewrite Hu, Hlead, Htrail, IH.
Qed.

(** X1.  When the first part of a string encodes, the encoding of the whole
    is the encoding of the first part followed by that of the rest, and the
    whole throws exactly when the rest does. *)
Theorem encodeURIComponent_app (a b ea : jsstring) :
  encodeURIComponent a = Ok ea →
  encodeURIComponent (a ++ b) = (eb ← encodeURIComponent b; Ok (ea ++ eb)).
Proof.
  intros Ha%encodeURIComponent_Encoded.
  induction Ha as [|c s e Hu _ IH|c d s e Hu Hlead Htrail _ IH|c s e Hu Hlead Htrail _ IH].
  - simpl. by destruct (encodeURIComponent b).
  - cbn [app encodeURIComponent]. rewrite Hu, IH.
    by destruct (encodeURIComponent b).
  - cbn [app encodeURIComponent]. rewrite Hu, Hlead, Htrail, IH.
    destruct (encodeURIComponent b); cbn [mbind result_bind]; [|done].
    by rewrite app_assoc.
  - cbn [app encodeURIComponent]. rewrite Hu, Hlead, Htrail, IH.
    destruct (encodeURIComponent b); cbn [mbind result_bind]; [|done].
    by rewrite app_assoc.
Qed.

Lemma encodeURIComponent_app_witness :
  encodeURIComponent (lit "React") = Ok (lit "React") ∧
  encodeURIComponent (lit "React" ++ lit " Native") = Ok (lit "React" ++ lit "%20Native") ∧
  encodeURIComponent (lit "React" ++ [0xDC00%N]) = Throw URIError.
Proof.
  split; [reflexivity|]. split.
  - exact (encodeURIComponent_app (lit "React") (lit " Native") _ eq_refl).
  - exact (encodeURIComponent_app (lit "React") [0xDC00%N] _ eq_refl).
Defined.

Lemma utf8_cons cp : ∃ o os, utf8 cp = o :: os.
Proof. unfold utf8. repeat case_match; eauto. Qed.

Lemma escapeCodePoint_cons cp :
  ∃ h l t, escapeCodePoint cp = 37%N :: h :: l :: t.
Proof.
  unfold escapeCodePoint. destruct (utf8_cons cp) as (o & os & ->).
  cbn [map concat percent app]. eauto.
Qed.

Lemma hexDigit_unescaped d : (d < 16)%N → uriUnescaped (hexDigit d) = true.
Proof.
  intros H. unfold hexDigit, uriUnescaped, in_range.
  destruct (N.ltb_spec d 10).
  - assert ((48 <=? 48 + d)%N && (48 + d <=? 57)%N = true) as ->; [|by rewrite !orb_true_r].
    apply andb_true_iff. split; apply N.leb_le; lia.
  - assert ((65 <=? 55 + d)%N && (55 + d <=? 90)%N = true) as ->; [|done].
    apply andb_true_iff. split; apply N.leb_le; lia.
Qed.

Lemma percent_urlSafe octet :
  (octet < 256)%N → Forall (λ c, urlSafe c = true) (percent octet).
Proof.
  intros H. unfold percent, urlSafe. repeat constructor.
  - rewrite hexDigit_unescaped; [done|]. apply N.Div0.div_lt_upper_bound. lia.
  - rewrite hexDigit_unescaped; [done|]. apply N.mod_lt. lia.
Qed.

Lemma escapeCodePoint_urlSafe cp :
  (cp < 0x110000)%N → Forall (λ c, urlSafe c = true) (escapeCodePoint cp).
Proof.
  intros H%utf8_octets. unfold escapeCodePoint.
  induction H as [|o os Ho _ IH]; cbn [map concat]; [constructor|].
  apply Forall_app. split; [by apply percent_urlSafe|done].
Qed.

Lemma surrogatePair_bounds c d :
  isLeadingSurrogate c = true → isTrailingSurrogate d = true →
  (0x10000 ≤ surrogatePairToCodePoint c d < 0x110000)%N.
Proof.
  unfold isLeadingSurrogate, isTrailingSurrogate, in_range, surrogatePairToCodePoint.
  rewrite !andb_true_iff, !N.leb_le. lia.
Qed.

(** What [encodeURIComponent] returns holds nothing but unescaped
    characters and percent signs. *)
Lemma encodeURIComponent_urlSafe (skill encodedSkill : jsstring) :
  validUnits skill →
  encodeURIComponent skill = Ok encodedSkill →
  Forall (λ c, urlSafe c = true) encodedSkill.
Proof.
  intros Hvalid Henc%encodeURIComponent_Encoded. unfold validUnits in Hvalid.
  induction Henc as [|c s e Hu _ IH|c d s e Hu Hlead Htrail _ IH|c s e Hu Hlead Htrail _ IH].
  - constructor.
  - apply Forall_cons in Hvalid as [_ Hs].
    constructor; [|by apply IH]. unfold urlSafe. by rewrite Hu.
  - apply Forall_cons in Hvalid as [_ [_ Hs]%Forall_cons].
    apply Forall_app. split; [|by apply IH].
    apply escapeCodePoint_urlSafe. by apply surrogatePair_bounds.
  - apply Forall_cons in Hvalid as [Hc Hs].
    apply Forall_app. split; [|by apply IH].
    apply escapeCodePoint_urlSafe. lia.
Qed.

(** ** What the encoder keeps and what it tells apart *)

Lemma escapeCodePoint_length cp : (3 ≤ length (escapeCodePoint cp))%nat.
Proof. destruct (escapeCodePoint_cons cp) as (h & l & t & ->). simpl. lia. Qed.

Lemma Encoded_length s e : Encoded s e → (length s ≤ length e)%nat.
Proof.
  induction 1 as [|c s e Hu _ IH|c d s e Hu Hlead Htrail _ IH|c s e Hu Hlead Htrail _ IH];
    simpl; rewrite ?length_app.
  - done.
  - lia.
  - pose proof (escapeCodePoint_length (surrogatePairToCodePoint c d)). lia.
  - pose proof (escapeCodePoint_length c). lia.
Qed.

Lemma Encoded_same_length s e :
  Encoded s e → length e = length s → Forall (λ c, uriUnescaped c = true) s.
Proof.
  induction 1 as [|c s e Hu Hse IH|c d s e Hu Hlead Htrail Hse IH|c s e Hu Hlead Htrail Hse IH];
    simpl; rewrite ?length_app; intros Hlen.
  - constructor.
  - constructor; [done|]. apply IH. lia.
  - pose proof (escapeCodePoint_length (surrogatePairToCodePoint c d)).
    apply Encoded_length in Hse. lia.
  - pose proof (escapeCodePoint_length c). apply Encoded_length in Hse. lia.
Qed.

Lemma Encoded_unescaped s : Forall (λ c, uriUnescaped c = true) s → Encoded s s.
Proof. induction 1; constructor; done. Qed.

(** X3.  A skill name comes out of [encodeURIComponent] unchanged exactly
    when it is made of letters, digits and the marks [- _ . ! ~ * ' ( )];
    an encoding is never shorter than the name. *)
Theorem encodeURIComponent_fixpoint (skill : jsstring) :
  (encodeURIComponent skill = Ok skill ↔ Forall (λ c, uriUnescaped c = true) skill) ∧
  (∀ encodedSkill, encodeURIComponent skill = Ok encodedSkill →
     (length skill ≤ length encodedSkill)%nat).
Proof.
  split; [split|].
  - intros H%encodeURIComponent_Encoded. by apply Encoded_same_length in H.
  - intros H. by apply encodeURIComponent_Encoded, Encoded_unescaped.
  - intros e H%encodeURIComponent_Encoded. by apply Encoded_length.
Qed.

Lemma encodeURIComponent_fixpoint_witness :
  encodeURIComponent (lit "Node.js") = Ok (lit "Node.js") ∧
  Forall (λ c, uriUnescaped c = true) (lit "Node.js") ∧
  (length (lit "C++") ≤ length (lit "C%2B%2B"))%nat.
Proof.
  destruct (encodeURIComponent_fixpoint (lit "Node.js")) as [[Hto _] _].
  destruct (encodeURIComponent_fixpoint (lit "C++")) as [_ Hlen].
  split; [reflexivity|]. split; [exact (Hto eq_refl)|].
  exact (Hlen (lit "C%2B%2B") eq_refl).
Defined.

Lemma hexDigit_inj d1 d2 :
  (d1 < 16)%N → (d2 < 16)%N → hexDigit d1 = hexDigit d2 → d1 = d2.
Proof.
  unfold hexDigit. intros H1 H2.
  destruct (N.ltb_spec d1 10), (N.ltb_spec d2 10); lia.
Qed.

Lemma percent_app_inj o1 o2 t1 t2 :
  (o1 < 256)%N → (o2 < 256)%N →
  percent o1 ++ t1 = percent o2 ++ t2 → o1 = o2 ∧ t1 = t2.
Proof.
  intros H1 H2. unfold percent. cbn [app]. intros [= Hhi Hlo ->].
  split; [|done].
  apply hexDigit_inj in Hhi; [|apply N.Div0.div_lt_upper_bound; lia..].
  apply hexDigit_inj in Hlo; [|apply N.mod_lt; lia..].
  rewrite (N.div_mod o1 16), (N.div_mod o2 16) by lia. congruence.
Qed.

Lemma percents_app_inj os1 os2 r1 r2 :
  Forall (λ o, (o < 256)%N) os1 → Forall (λ o, (o < 256)%N) os2 →
  length os1 = length os2 →
  concat (map percent os1) ++ r1 = concat (map percent os2) ++ r2 →
  os1 = os2 ∧ r1 = r2.
Proof.
  intros H1. revert os2. induction H1 as [|o1 os1 Ho1 _ IH]; intros os2 H2 Hlen.
  - destruct os2; [done|discriminate Hlen].
  - destruct H2 as [|o2 os2 Ho2 H2]; [discriminate Hlen|].
    cbn [map concat]. rewrite <- !app_assoc.
    intros [-> Hrest]%percent_app_inj; [|done..].
    destruct (IH os2 H2 ltac:(by injection Hlen) Hrest) as [-> ->]. done.
Qed.

(** UTF-8 is a prefix code: the first octet tells how many follow. *)
Lemma utf8_first_octet cp1 cp2 o1 os1 o2 os2 :
  (cp1 < 0x110000)%N → (cp2 < 0x110000)%N →
  utf8 cp1 = o1 :: os1 → utf8 cp2 = o2 :: os2 → o1 = o2 →
  length os1 = length os2.
Proof.
  intros H1 H2. unfold utf8.
  destruct (N.ltb_spec cp1 0x80); [|destruct (N.ltb_spec cp1 0x800);
    [|destruct (N.ltb_spec cp1 0x10000)]];
  (destruct (N.ltb_spec cp2 0x80); [|destruct (N.ltb_spec cp2 0x800);
    [|destruct (N.ltb_spec cp2 0x10000)]]);
  intros [= <- <-] [= <- <-] Heq; try done; exfalso;
  zify; Z.to_euclidean_division_equations; lia.
Qed.

Lemma utf8_inj cp1 cp2 :
  (cp1 < 0x110000)%N → (cp2 < 0x110000)%N → utf8 cp1 = utf8 cp2 → cp1 = cp2.
Proof.
  intros H1 H2. unfold utf8.
  destruct (N.ltb_spec cp1 0x80); [|destruct (N.ltb_spec cp1 0x800);
    [|destruct (N.ltb_spec cp1 0x10000)]];
  (destruct (N.ltb_spec cp2 0x80); [|destruct (N.ltb_spec cp2 0x800);
    [|destruct (N.ltb_spec cp2 0x10000)]]);
  intros Heq; try discriminate Heq; injection Heq; intros;
  zify; Z.to_euclidean_division_equations; lia.
Qed.

Lemma escapeCodePoint_app_inj cp1 cp2 r1 r2 :
  (cp1 < 0x110000)%N → (cp2 < 0x110000)%N →
  escapeCodePoint cp1 ++ r1 = escapeCodePoint cp2 ++ r2 →
  cp1 = cp2 ∧ r1 = r2.
Proof.
  intros H1 H2. unfold escapeCodePoint. intros Heq.
  pose proof (utf8_octets cp1 H1) as Ho1. pose proof (utf8_octets cp2 H2) as Ho2.
  destruct (utf8_cons cp1) as (o1 & os1 & E1).
  destruct (utf8_cons cp2) as (o2 & os2 & E2).
  assert (o1 = o2) as Hfirst.
  { rewrite E1 in Heq, Ho1. rewrite E2 in Heq, Ho2. cbn [map concat] in Heq.
    rewrite <- !app_assoc in Heq.
    apply Forall_cons in Ho1 as [? _]. apply Forall_cons in Ho2 as [? _].
    by apply percent_app_inj in Heq as [-> _]. }
  pose proof (utf8_first_octet _ _ _ _ _ _ H1 H2 E1 E2 Hfirst) as Hlen.
  apply percents_app_inj in Heq as [Hutf ->]; [|done|done|].
  - split; [|done]. by apply utf8_inj.
  - rewrite E1, E2. simpl. by rewrite Hlen.
Qed.

Lemma surrogatePair_inj c1 d1 c2 d2 :
  isLeadingSurrogate c1 = true → isTrailingSurrogate d1 = true →
  isLeadingSurrogate c2 = true → isTrailingSurrogate d2 = true →
  surrogatePairToCodePoint c1 d1 = surrogatePairToCodePoint c2 d2 →
  c1 = c2 ∧ d1 = d2.
Proof.
  unfold isLeadingSurrogate, isTrailingSurrogate, in_range, surrogatePairToCodePoint.
  rewrite !andb_true_iff, !N.leb_le. lia.
Qed.

Lemma escape_not_kept c cp e t :
  uriUnescaped c = true → c :: e = escapeCodePoint cp ++ t → False.
Proof.
  intros Hu. destruct (escapeCodePoint_cons cp) as (h & l & t' & ->).
  intros [= -> _]. discriminate Hu.
Qed.

Lemma escape_not_nil cp (t : jsstring) : [] = escapeCodePoint cp ++ t → False.
Proof. destruct (escapeCodePoint_cons cp) as (h & l & t' & ->). discriminate. Qed.

(** Two strings of code units with the same encoding are the same string. *)
Lemma Encoded_inj s1 e1 :
  Encoded s1 e1 → ∀ s2 e2, Encoded s2 e2 → e1 = e2 →
  validUnits s1 → validUnits s2 → s1 = s2.
Proof.
  unfold validUnits.
  induction 1 as [|c s e Hu _ IH|c d s e Hu Hlead Htrail _ IH|c s e Hu Hlead Htrail _ IH];
    intros s2 e2 H2;
    destruct H2 as [|c' s' e' Hu' H'|c' d' s' e' Hu' Hlead' Htrail' H'|c' s' e' Hu' Hlead' Htrail' H'];
    intros Heq V1 V2;
    try discriminate Heq;
    try (exfalso; by eapply escape_not_nil);
    try (exfalso; by eapply escape_not_kept);
    try (exfalso; symmetry in Heq; by (eapply escape_not_nil || eapply escape_not_kept)).
  - done.
  - injection Heq as -> ->.
    apply Forall_cons in V1 as [_ V1]. apply Forall_cons in V2 as [_ V2].
    f_equal. by eapply IH.
  - apply Forall_cons in V1 as [_ [_ V1]%Forall_cons].
    apply Forall_cons in V2 as [_ [_ V2]%Forall_cons].
    apply escapeCodePoint_app_inj in Heq as [Hcp ->];
      [|by apply surrogatePair_bounds..].
    apply surrogatePair_inj in Hcp as [-> ->]; [|done..].
    do 2 f_equal. by eapply IH.
  - apply Forall_cons in V2 as [Hc' _].
    pose proof (surrogatePair_bounds c d Hlead Htrail).
    apply escapeCodePoint_app_inj in Heq as [Hcp _]; lia.
  - apply Forall_cons in V1 as [Hc _].
    pose proof (surrogatePair_bounds c' d' Hlead' Htrail').
    apply escapeCodePoint_app_inj in Heq as [Hcp _]; lia.
  - apply Forall_cons in V1 as [Hc V1]. apply Forall_cons in V2 as [Hc' V2].
    apply escapeCodePoint_app_inj in Heq as [-> ->]; [|lia..].
    f_equal. by eapply IH.
Qed.

Lemma generateResources_links skill rs :
  generateResources skill = Ok rs →
  ∃ encodedSkill,
    encodeURIComponent skill = Ok encodedSkill ∧
    link <$> rs !! 0%nat
    = Some (Some (lit "https://www.udemy.com/courses/search/?q=" ++ encodedSkill)) ∧
    link <$> rs !! 1%nat
    = Some (Some (lit "https://www.youtube.com/results?search_query="
                    ++ encodedSkill ++ lit "+tutorial")) ∧
    link <$> rs !! 2%nat
    = Some (Some (lit "https://github.com/topics/" ++ toLowerCase encodedSkill)) ∧
    link <$> rs !! 3%nat
    = Some (Some (lit "https://www.google.com/search?q="
                    ++ encodedSkill ++ lit "+best+practices+guide")).
Proof.
  unfold generateResources.
  destruct (encodeURIComponent skill) as [e|]; cbn [mbind result_bind]; [|done].
  intros [= <-]. exists e. split_and!; reflexivity.
Qed.

Lemma toLowerCase_urlSafe (e : jsstring) :
  Forall (λ c, urlSafe c = true) e → Forall (λ c, urlSafe c = true) (toLowerCase e).
Proof.
  unfold toLowerCase. intros H. apply Forall_fmap.
  eapply Forall_impl; [exact H|]. intros c Hc. unfold compose.
  destruct (in_range 65 90 c) eqn:Hup; [|done].
  unfold in_range in Hup. apply andb_true_iff in Hup as [Hlo%N.leb_le Hhi%N.leb_le].
  unfold urlSafe, uriUnescaped.
  assert (in_range 97 122 (c + 32) = true) as ->; [|by rewrite orb_true_r].
  unfold in_range. apply andb_true_iff. split; apply N.leb_le; lia.
Qed.

(** X2.  Each of the four links is a fixed template around the encoded
    skill name, lowercased for GitHub, and what is put into the templates
    holds nothing but unescaped characters and percent signs: the skill name
    cannot put a space, an ampersand, a slash, a question mark or a hash of
    its own into a link. *)
Theorem generateResources_links_urlSafe (skill : jsstring)
    (rs : list LearningResource) :
  validUnits skill →
  generateResources skill = Ok rs →
  ∃ encodedSkill,
    encodeURIComponent skill = Ok encodedSkill ∧
    Forall (λ c, urlSafe c = true) encodedSkill ∧
    Forall (λ c, urlSafe c = true) (toLowerCase encodedSkill) ∧
    link <$> rs =
      [ Some (lit "https://www.udemy.com/courses/search/?q=" ++ encodedSkill);
        Some (lit "https://www.youtube.com/results?search_query="
                ++ encodedSkill ++ lit "+tutorial");
        Some (lit "https://github.com/topics/" ++ toLowerCase encodedSkill);
        Some (lit "https://www.google.com/search?q="
                ++ encodedSkill ++ lit "+best+practices+guide") ].
Proof.
  intros Hvalid. unfold generateResources.
  destruct (encodeURIComponent skill) as [e|] eqn:Henc; cbn [mbind result_bind]; [|done].
  intros [= <-]. exists e.
  pose proof (encodeURIComponent_urlSafe skill e Hvalid Henc) as Hsafe.
  split_and!; [done|done|by apply toLowerCase_urlSafe|reflexivity].
Qed.

Lemma generateResources_links_urlSafe_witness :
  validUnits (lit "C# & .NET") ∧
  ∃ rs,
    generateResources (lit "C# & .NET") = Ok rs ∧
    Forall (λ c, urlSafe c = true) (lit "C%23%20%26%20.NET") ∧
    Forall (λ c, urlSafe c = true) (lit "c%23%20%26%20.net") ∧
    link <$> rs =
      [ Some (lit "https://www.udemy.com/courses/search/?q=C%23%20%26%20.NET");
        Some (lit "https://www.youtube.com/results?search_query=C%23%20%26%20.NET+tutorial");
        Some (lit "https://github.com/topics/c%23%20%26%20.net");
        Some (lit "https://www.google.com/search?q=C%23%20%26%20.NET+best+practices+guide") ].
Proof.
  assert (Hvalid : validUnits (lit "C# & .NET")) by (repeat constructor).
  split; [exact Hvalid|]. eexists. split; [reflexivity|].
  destruct (generateResources_links_urlSafe (lit "C# & .NET") _ Hvalid eq_refl)
    as (e & He & Hsafe & Hlower & Hlinks).
  injection He as <-.
  split; [exact Hsafe|]. split; [exact Hlower|exact Hlinks].
Defined.

(** X4.  [encodeURIComponent] tells skill names apart, and so do the three
    search links: two skill names whose Udemy links, YouTube links or Google
    links coincide are the same name. *)
Theorem search_links_injective (skill1 skill2 : jsstring)
    (rs1 rs2 : list LearningResource) (i : nat) :
  validUnits skill1 → validUnits skill2 →
  generateResources skill1 = Ok rs1 →
  generateResources skill2 = Ok rs2 →
  i ∈ [0; 1; 3]%nat →
  link <$> rs1 !! i = link <$> rs2 !! i →
  skill1 = skill2.
Proof.
  intros V1 V2 (e1 & He1 & L0 & L1 & _ & L3)%generateResources_links
    (e2 & He2 & M0 & M1 & _ & M3)%generateResources_links Hi Hlink.
  apply encodeURIComponent_Encoded in He1, He2.
  assert (e1 = e2) as Heq; [|by eapply Encoded_inj].
  apply elem_of_cons in Hi as [->|Hi]; [|apply elem_of_cons in Hi as [->|Hi];
    [|apply elem_of_cons in Hi as [->|Hi]; [|by apply elem_of_nil in Hi]]].
  - rewrite L0, M0 in Hlink. apply (inj Some), (inj Some) in Hlink.
    by apply app_inv_head in Hlink.
  - rewrite L1, M1 in Hlink. apply (inj Some), (inj Some) in Hlink.
    by apply app_inv_head, app_inv_tail in Hlink.
  - rewrite L3, M3 in Hlink. apply (inj Some), (inj Some) in Hlink.
    by apply app_inv_head, app_inv_tail in Hlink.
Qed.

(** The hypotheses hold for "C++" with itself, and "C++" and "C#" are told
    apart by the YouTube link. *)
Lemma search_links_injective_witness :
  lit "C++" = lit "C++" ∧
  ∃ rs1 rs2,
    generateResources (lit "C++") = Ok rs1 ∧
    generateResources (lit "C#") = Ok rs2 ∧
    link <$> rs1 !! 1%nat ≠ link <$> rs2 !! 1%nat.
Proof.
  assert (validUnits (lit "C++")) as V1 by (repeat constructor).
  assert (validUnits (lit "C#")) as V2 by (repeat constructor).
  assert (1%nat ∈ [0; 1; 3]%nat) as Hi by (apply list_elem_of_further, list_elem_of_here).
  split.
  - exact (search_links_injective (lit "C++") (lit "C++") _ _ 1
             V1 V1 eq_refl eq_refl Hi eq_refl).
  - eexists _, _. split; [reflexivity|]. split; [reflexivity|].
    intros Hlink.
    pose proof (search_links_injective (lit "C++") (lit "C#") _ _ 1
                  V1 V2 eq_refl eq_refl Hi Hlink) as Heq.
    discriminate Heq.
Defined.

Lemma toLowerCase_app (a b : jsstring) :
  toLowerCase (a ++ b) = toLowerCase a ++ toLowerCase b.
Proof. unfold toLowerCase. apply map_app. Qed.

(** X5.  The GitHub link does not tell apart names that differ in the case
    of their letters: for names made of unescaped characters, the GitHub
    links of two names coincide exactly when the lowercased names do. *)
Theorem github_link_folds_case (skill1 skill2 : jsstring)
    (rs1 rs2 : list LearningResource) :
  Forall (λ c, uriUnescaped c = true) skill1 →
  Forall (λ c, uriUnescaped c = true) skill2 →
  generateResources skill1 = Ok rs1 →
  generateResources skill2 = Ok rs2 →
  (link <$> rs1 !! 2%nat = link <$> rs2 !! 2%nat
   ↔ toLowerCase skill1 = toLowerCase skill2).
Proof.
  intros U1%Encoded_unescaped%encodeURIComponent_Encoded
         U2%Encoded_unescaped%encodeURIComponent_Encoded
         (e1 & He1 & _ & _ & L2 & _)%generateResources_links
         (e2 & He2 & _ & _ & M2 & _)%generateResources_links.
  rewrite U1 in He1. rewrite U2 in He2.
  injection He1 as <-. injection He2 as <-.
  rewrite L2, M2. split.
  - intros Hlink. apply (inj Some), (inj Some) in Hlink.
    by apply app_inv_head in Hlink.
  - by intros ->.
Qed.

(** "GraphQL" and "graphql" share the GitHub link and no other. *)
Lemma github_link_folds_case_witness :
  lit "GraphQL" ≠ lit "graphql" ∧
  ∃ rs1 rs2,
    generateResources (lit "GraphQL") = Ok rs1 ∧
    generateResources (lit "graphql") = Ok rs2 ∧
    link <$> rs1 !! 2%nat = link <$> rs2 !! 2%nat ∧
    link <$> rs1 !! 0%nat ≠ link <$> rs2 !! 0%nat.
Proof.
  split; [discriminate|].
  eexists _, _. split; [reflexivity|]. split; [reflexivity|]. split.
  - apply (github_link_folds_case (lit "GraphQL") (lit "graphql") _ _);
      [repeat constructor|repeat constructor|reflexivity|reflexivity|reflexivity].
  - discriminate.
Defined.

(** ** The steps of a roadmap *)

Lemma generateResources_shape skill rs :
  generateResources skill = Ok rs →
  length rs = 4%nat ∧ type <$> rs = [course; video; project; article].
Proof.
  unfold generateResources.
  destruct (encodeURIComponent skill); cbn [mbind result_bind]; [|done].
  by intros [= <-].
Qed.

Section Steps.

Variable skillTaxonomy : gmap jsstring Taxonomy.entry.

(** A step of the roadmap is the callback's value on some skill of the job. *)
Lemma roadmapSteps_elem job steps step :
  roadmapSteps skillTaxonomy job = Ok steps →
  step ∈ steps →
  ∃ name index, name ∈ missingSkills job ∧
                roadmapStep skillTaxonomy name index = Ok step.
Proof.
  unfold roadmapSteps, Array_map. intros Hsteps [i Hi]%list_elem_of_lookup.
  destruct (map_from_lookup _ _ _ _ _ _ Hsteps Hi) as (name & Hname & Hstep).
  exists name, (0 + Z.of_nat i). split; [|done].
  apply list_elem_of_lookup. eauto.
Qed.

(** X6.  Every step of a built roadmap carries the four resources that
    [generateResources] returns for its skill, of types course, video,
    project, article in this order, and the four milestones of
    [generateMilestones]. *)
Theorem steps_carry_generators (job : Job.t) (steps : list RoadmapStep)
    (step : RoadmapStep) :
  roadmapSteps skillTaxonomy job = Ok steps →
  step ∈ steps →
  generateResources (skill step) = Ok (resources step) ∧
  length (resources step) = 4%nat ∧
  type <$> resources step = [course; video; project; article] ∧
  milestones step = generateMilestones (skill step) ∧
  length (milestones step) = 4%nat.
Proof.
  intros Hsteps Hin.
  destruct (roadmapSteps_elem _ _ _ Hsteps Hin) as (name & index & _ & Hstep).
  apply roadmapStep_Ok in Hstep as (<- & _ & _ & _ & _ & Hrs & ->).
  destruct (generateResources_shape _ _ Hrs) as [Hlen Htypes].
  split_and!; done.
Qed.

End Steps.

Lemma steps_carry_generators_witness :
  ∃ step,
    roadmapSteps sample_taxonomy (job_with (Some [lit "Go"])) = Ok [step] ∧
    length (resources step) = 4%nat ∧
    length (milestones step) = 4%nat.
Proof.
  eexists. split; [reflexivity|].
  match goal with
  | |- length (resources ?step) = _ ∧ _ =>
      destruct (steps_carry_generators sample_taxonomy (job_with (Some [lit "Go"]))
                  [step] step eq_refl (list_elem_of_here _ _))
        as (_ & Hresources & _ & _ & Hmilestones)
  end.
  split; [exact Hresources|exact Hmilestones].
Defined.

(** X7.  The category of a step is never the empty string, and it is
    "General" exactly when the skill has no taxonomy entry or the entry's
    category is empty or "General" itself. *)
Theorem category_never_empty
    (skillTaxonomy : gmap jsstring Taxonomy.entry) (job : Job.t)
    (steps : list RoadmapStep) (step : RoadmapStep) :
  roadmapSteps skillTaxonomy job = Ok steps →
  step ∈ steps →
  category step ≠ [] ∧
  (category step = lit "General" ↔
   skillTaxonomy !! skill step = None ∨
   ∃ entry, skillTaxonomy !! skill step = Some entry ∧
            (Taxonomy.category entry = [] ∨ Taxonomy.category entry = lit "General")).
Proof.
  intros Hsteps Hin.
  destruct (roadmapSteps_elem _ _ _ _ Hsteps Hin) as (name & index & _ & Hstep).
  apply roadmapStep_Ok in Hstep as (<- & _ & _ & _ & -> & _).
  unfold category_of, string_or.
  destruct (skillTaxonomy !! skill step) as [entry|].
  - destruct (Taxonomy.category entry) as [|c cat] eqn:Hcat.
    + split; [discriminate|]. split; [|done]. intros _. right. eauto.
    + split; [discriminate|]. split.
      * intros Hgen. right. exists entry. rewrite Hcat. eauto.
      * intros [Hnone|(entry' & [= <-] & [Hnil|Hgen])]; congruence.
  - split; [discriminate|]. split; [eauto|done].
Qed.

Lemma category_never_empty_witness :
  ∃ step,
    roadmapSteps short_taxonomy (job_with (Some [lit "Kubernetes"])) = Ok [step] ∧
    category step ≠ [] ∧
    category step = lit "General".
Proof.
  eexists. split; [reflexivity|].
  match goal with
  | |- category ?step ≠ _ ∧ _ =>
      destruct (category_never_empty short_taxonomy (job_with (Some [lit "Kubernetes"]))
                  [step] step eq_refl (list_elem_of_here _ _)) as (Hne & Hgen)
  end.
  split; [exact Hne|]. apply Hgen. right. exists short_entry. split; [reflexivity|].
  left. reflexivity.
Defined.

(** X8.  The derivation of the steps throws a URIError exactly when some
    missing skill has an unpaired surrogate, wherever it stands in the list
    and whatever the taxonomy holds; no partial roadmap is built. *)
Theorem roadmapSteps_Throw_iff
    (skillTaxonomy : gmap jsstring Taxonomy.entry) (job : Job.t) :
  roadmapSteps skillTaxonomy job = Throw URIError ↔
  Exists (λ name, wellFormed name = false) (missingSkills job).
Proof.
  pose proof (roadmapSteps_Ok_iff skillTaxonomy job) as Hok.
  rewrite Exists_exists. split.
  - intros Hthrow.
    destruct (decide (Forall (λ name, wellFormed name = true) (missingSkills job)))
      as [Hall|Hnot].
    + apply Hok in Hall as [steps Hsteps]. congruence.
    + apply not_Forall_Exists in Hnot; [|intros ?; apply _].
      apply Exists_exists in Hnot as (name & Hin & Hwf).
      exists name. split; [done|]. by apply not_true_is_false.
  - intros (name & Hin & Hwf).
    destruct (roadmapSteps skillTaxonomy job) as [steps|[]] eqn:Hsteps; [|done].
    assert (Forall (λ name, wellFormed name = true) (missingSkills job)) as Hall
      by (apply Hok; eauto).
    rewrite Forall_forall in Hall. specialize (Hall name Hin). congruence.
Qed.

Example roadmapSteps_Throw_last :
  roadmapSteps sample_taxonomy
    (job_with (Some [lit "Go"; lit "Kubernetes"; lit "Rust" ++ [0xD83D%N]]))
  = Throw URIError.
Proof. reflexivity. Qed.

(** X9.  For a skill with a taxonomy entry, the weeks are four times the
    entry's [learningTimeMonths] unless that is zero, and then they are the
    4, 2 or 1 of the entry's difficulty; so the weeks are positive exactly
    when [learningTimeMonths] is not negative. *)
Theorem weeks_follow_months
    (skillTaxonomy : gmap jsstring Taxonomy.entry) (job : Job.t)
    (steps : list RoadmapStep) (step : RoadmapStep) (entry : Taxonomy.entry) :
  roadmapSteps skillTaxonomy job = Ok steps →
  step ∈ steps →
  skillTaxonomy !! skill step = Some entry →
  (Taxonomy.learningTimeMonths entry == 0 →
     weeks step = fallback_weeks (Taxonomy.difficulty entry)) ∧
  (¬ Taxonomy.learningTimeMonths entry == 0 →
     weeks step = (Taxonomy.learningTimeMonths entry * 4)%Q) ∧
  ((0 < weeks step)%Q ↔ (0 <= Taxonomy.learningTimeMonths entry)%Q).
Proof.
  intros Hsteps Hin Hentry.
  destruct (roadmapSteps_elem _ _ _ _ Hsteps Hin) as (name & index & _ & Hstep).
  apply roadmapStep_Ok in Hstep as (<- & Hd & -> & _).
  rewrite Hentry in Hd |- *. rewrite Hd. cbn [weeks_of difficulty_of].
  unfold number_truthy.
  destruct (Qeq_bool (Taxonomy.learningTimeMonths entry) 0) eqn:Hz; cbn [negb].
  - apply Qeq_bool_iff in Hz. split_and!; [done|done|].
    split; [intros _; lra|].
    intros _. apply fallback_weeks_positive_integer.
  - apply Qeq_bool_neq in Hz. split_and!; [done|done|]. split; intros H; lra.
Qed.

(** An entry with no learning time: the two weeks of its Medium difficulty. *)
Lemma weeks_follow_months_witness :
  ∃ step,
    roadmapSteps unrated_taxonomy (job_with (Some [lit "Terraform"])) = Ok [step] ∧
    weeks step = 2%Q ∧
    (0 < weeks step)%Q.
Proof.
  eexists. split; [reflexivity|].
  match goal with
  | |- weeks ?step = _ ∧ _ =>
      destruct (weeks_follow_months unrated_taxonomy (job_with (Some [lit "Terraform"]))
                  [step] step unrated_entry eq_refl (list_elem_of_here _ _) eq_refl)
        as (Hzero & _ & Hsign)
  end.
  split; [apply Hzero; reflexivity|apply Hsign; discriminate].
Defined.

(** ** The totals of a roadmap *)

Lemma map_from_fmap {A B C} (f : A → Z → result B) (g : B → C) (h : A → C)
    index xs ys :
  (∀ x k y, f x k = Ok y → g y = h x) →
  map_from f index xs = Ok ys →
  g <$> ys = h <$> xs.
Proof.
  intros Hgh. revert index ys. induction xs as [|x xs IH]; intros index ys; simpl.
  - by intros [= <-].
  - destruct (f x index) as [y|] eqn:Hy; [|done]. cbn [mbind result_bind].
    destruct (map_from f (index + 1) xs) as [ys'|] eqn:Hys; [|done].
    cbn [mbind result_bind]. intros [= <-]. cbn [fmap list_fmap].
    f_equal; [by eapply Hgh|by eapply IH].
Qed.

(** The weeks of the steps, read off the skills of the job. *)
Lemma roadmapSteps_weeks (skillTaxonomy : gmap jsstring Taxonomy.entry) job steps :
  roadmapSteps skillTaxonomy job = Ok steps →
  weeks <$> steps
  = (λ name, weeks_of (skillTaxonomy !! name)
               (difficulty_of (skillTaxonomy !! name) name)) <$> missingSkills job.
Proof.
  unfold roadmapSteps, Array_map. apply map_from_fmap.
  intros name k step (_ & Hd & Hw & _)%roadmapStep_Ok. by rewrite Hw, Hd.
Qed.

Lemma Qsum_fmap_bounds {A} (h : A → Q) (lo hi : Q) (xs : list A) :
  (∀ x, x ∈ xs → lo <= h x ∧ h x <= hi)%Q →
  (inject_Z (Z.of_nat (length xs)) * lo <= Qsum (h <$> xs) ∧
   Qsum (h <$> xs) <= inject_Z (Z.of_nat (length xs)) * hi)%Q.
Proof.
  unfold Qsum. induction xs as [|x xs IH]; intros Hh.
  - cbn [length fmap list_fmap foldr]. change (inject_Z (Z.of_nat 0)) with 0%Q. lra.
  - cbn [length fmap list_fmap foldr].
    destruct (Hh x (list_elem_of_here _ _)) as [Hlo Hhi].
    destruct IH as [IHlo IHhi]; [intros y Hy; apply Hh; by apply list_elem_of_further|].
    rewrite Nat2Z.inj_succ. unfold Z.succ. rewrite inject_Z_plus.
    change (inject_Z 1) with 1%Q. split; nra.
Qed.

Lemma Qsum_fmap_ext {A} (h1 h2 : A → Q) (xs : list A) :
  (∀ x, x ∈ xs → h1 x == h2 x) → Qsum (h1 <$> xs) == Qsum (h2 <$> xs).
Proof.
  unfold Qsum. induction xs as [|x xs IH]; intros Hh; cbn [fmap list_fmap foldr].
  - reflexivity.
  - rewrite (Hh x (list_elem_of_here _ _)), IH; [reflexivity|].
    intros y Hy. apply Hh. by apply list_elem_of_further.
Qed.

Lemma Qsum_fmap_scale {A} (h : A → Q) (c : Q) (xs : list A) :
  Qsum ((λ x, h x * c)%Q <$> xs) == c * Qsum (h <$> xs).
Proof.
  unfold Qsum. induction xs as [|x xs IH]; cbn [fmap list_fmap foldr]; [ring|].
  rewrite IH. ring.
Qed.

Lemma Qceiling_le_Z (x : Q) (z : Z) : (x <= inject_Z z)%Q → Qceiling x ≤ z.
Proof. intros H%Qceiling_resp_le. by rewrite Qceiling_Z in H. Qed.

Lemma Qceiling_pos (x : Q) : (0 < x)%Q → 1 ≤ Qceiling x.
Proof.
  intros H. pose proof (Qle_ceiling x) as Hle.
  assert (0 < inject_Z (Qceiling x))%Q as Hpos by lra.
  rewrite <- (Zlt_Qlt 0) in Hpos. lia.
Qed.

Lemma Number_isInteger_inject (x : Q) (z : Z) :
  x == inject_Z z → Number_isInteger x = true.
Proof.
  intros H. unfold Number_isInteger. apply Qeq_bool_iff.
  by rewrite (Qfloor_comp _ _ H), Qfloor_Z.
Qed.

Lemma Qsum_fmap_Z {A} (h : A → Q) (xs : list A) :
  (∀ x, x ∈ xs → ∃ z : Z, h x == inject_Z z) → ∃ s : Z, Qsum (h <$> xs) == inject_Z s.
Proof.
  unfold Qsum. induction xs as [|x xs IH]; intros Hh; cbn [fmap list_fmap foldr].
  - by exists 0.
  - destruct (Hh x (list_elem_of_here _ _)) as [z Hz].
    destruct IH as [s Hs]; [intros y Hy; apply Hh; by apply list_elem_of_further|].
    exists (z + s). by rewrite Hz, Hs, inject_Z_plus.
Qed.

Lemma Forall_weeks (P : Q → Prop) (steps : list RoadmapStep) :
  Forall P (weeks <$> steps) → Forall (λ step, P (weeks step)) steps.
Proof.
  induction steps as [|step steps IH]; intros H; [constructor|].
  cbn [fmap list_fmap] in H. apply Forall_cons in H as [Hstep Hrest].
  constructor; [done|by apply IH].
Qed.

(** The sum of line 132 stays positive when no addend is below the least
    positive double. *)
Lemma totalWeeks_from_positive (steps : list RoadmapStep) (acc : Q) :
  (0 <= acc)%Q →
  Forall (λ step, 2 ^ (-1074) <= weeks step)%Q steps →
  steps ≠ [] →
  (0 < fold_left (λ acc step, Number_add acc (weeks step)) steps acc)%Q.
Proof.
  intros Hacc Hmin. revert acc Hacc.
  induction Hmin as [|step steps Hstep Hrest IH]; intros acc Hacc Hne; [done|].
  cbn [fold_left].
  assert (0 < Number_add acc (weeks step))%Q as Hpos
    by (apply round64_pos; lra).
  destruct steps as [|step' steps]; [done|].
  apply IH; [lra|done].
Qed.

Lemma weeks_of_at_least (taxonomy : option Taxonomy.entry) (d : Difficulty) :
  (∀ entry, taxonomy = Some entry →
     (0 <= Taxonomy.learningTimeMonths entry)%Q ∧
     isDouble (Taxonomy.learningTimeMonths entry) = true) →
  (2 ^ (-1074) <= weeks_of taxonomy d)%Q.
Proof.
  intros Hentry.
  assert (2 ^ (-1074) <= 1)%Q as Hone by (apply (pow2_le (-1074) 0); lia).
  assert (2 ^ (-1074) <= fallback_weeks d)%Q as Hfallback
    by (destruct d; cbn [fallback_weeks]; lra).
  destruct taxonomy as [entry|]; cbn [weeks_of]; [|done].
  destruct (Hentry entry eq_refl) as [Hnonneg Hdouble]. unfold number_truthy.
  destruct (Qeq_bool (Taxonomy.learningTimeMonths entry) 0) eqn:Hz; cbn [negb]; [done|].
  apply Qeq_bool_neq in Hz.
  pose proof (isDouble_pos _ Hdouble ltac:(lra)). lra.
Qed.

(** X10.  When every [learningTimeMonths] of the taxonomy is a double and
    none is negative, the months in the header are 0 exactly when the job has
    no missing skill, and at least 1 otherwise. *)
Theorem totalMonths_zero_iff
    (skillTaxonomy : gmap jsstring Taxonomy.entry) (job : Job.t)
    (steps : list RoadmapStep) :
  (∀ name entry, skillTaxonomy !! name = Some entry →
     (0 <= Taxonomy.learningTimeMonths entry)%Q) →
  (∀ name entry, skillTaxonomy !! name = Some entry →
     isDouble (Taxonomy.learningTimeMonths entry) = true) →
  roadmapSteps skillTaxonomy job = Ok steps →
  (totalMonths steps == 0 ↔ missingSkills job = []) ∧
  (missingSkills job ≠ [] → (1 <= totalMonths steps)%Q).
Proof.
  intros Hnonneg Hdouble Hsteps.
  assert (Hpos : missingSkills job ≠ [] → (1 <= totalMonths steps)%Q).
  { intros Hne. unfold totalMonths, Math_ceil.
    rewrite <- (Zle_Qle 1). apply Qceiling_pos.
    assert (0 < totalWeeks steps)%Q;
      [|apply Qlt_shift_div_l; [reflexivity|lra]].
    apply totalWeeks_from_positive; [lra| |].
    - apply (Forall_weeks (λ w, 2 ^ (-1074) <= w)%Q).
      rewrite (roadmapSteps_weeks _ _ _ Hsteps).
      apply Forall_fmap, Forall_forall. intros name _. unfold compose.
      apply weeks_of_at_least. intros entry Hentry. split; eauto.
    - intros ->. unfold roadmapSteps, Array_map in Hsteps.
      apply map_from_length in Hsteps. by destruct (missingSkills job). }
  split; [|exact Hpos]. split.
  - intros Hzero. destruct (missingSkills job) as [|name names] eqn:Hms; [done|].
    specialize (Hpos ltac:(done)). lra.
  - intros Hnil. unfold roadmapSteps, Array_map in Hsteps. rewrite Hnil in Hsteps.
    injection Hsteps as <-. reflexivity.
Qed.

Lemma sample_taxonomy_double name entry :
  sample_taxonomy !! name = Some entry →
  isDouble (Taxonomy.learningTimeMonths entry) = true.
Proof. unfold sample_taxonomy. by intros [_ <-]%lookup_singleton_Some. Qed.

Lemma totalMonths_zero_iff_witness :
  ∃ steps,
    roadmapSteps sample_taxonomy (job_with (Some [lit "Go"])) = Ok steps ∧
    (1 <= totalMonths steps)%Q.
Proof.
  eexists. split; [reflexivity|].
  eapply (totalMonths_zero_iff sample_taxonomy (job_with (Some [lit "Go"]))).
  - intros name entry H%sample_taxonomy_positive. lra.
  - exact sample_taxonomy_double.
  - reflexivity.
  - discriminate.
Defined.

(** X11.  When no missing skill has a taxonomy entry, a roadmap of [n]
    steps takes between [n] and [4 n] weeks and at most [n] months.  The
    weeks are then whole numbers; the bound on [n], which every array
    meets, keeps their sum below 2^53, where doubles are exact. *)
Theorem fallback_roadmap_bounds
    (skillTaxonomy : gmap jsstring Taxonomy.entry) (job : Job.t)
    (steps : list RoadmapStep) :
  roadmapSteps skillTaxonomy job = Ok steps →
  (∀ name, name ∈ missingSkills job → skillTaxonomy !! name = None) →
  Z.of_nat (length steps) < 2 ^ 51 →
  (inject_Z (Z.of_nat (length steps)) <= totalWeeks steps)%Q ∧
  (totalWeeks steps <= 4 * inject_Z (Z.of_nat (length steps)))%Q ∧
  (totalMonths steps <= inject_Z (Z.of_nat (length steps)))%Q.
Proof.
  intros Hsteps Hnone Hlen.
  assert (length steps = length (missingSkills job)) as Hlength
    by (by eapply map_from_length).
  pose proof (Qsum_fmap_bounds
    (λ name, weeks_of (skillTaxonomy !! name)
               (difficulty_of (skillTaxonomy !! name) name)) 1 4 (missingSkills job))
    as [Hlo Hhi].
  { intros name Hin. rewrite (Hnone name Hin). cbn [weeks_of].
    destruct (difficulty_of None name); cbn [fallback_weeks]; lra. }
  rewrite <- (roadmapSteps_weeks _ _ _ Hsteps), <- Hlength in Hlo, Hhi.
  assert (inject_Z (Z.of_nat (length steps)) * 4 < inject_Z (2 ^ 53))%Q as Hbound.
  { change 4%Q with (inject_Z 4). rewrite <- inject_Z_mult, <- Zlt_Qlt.
    change (2 ^ 53) with (2 ^ 51 * 4). lia. }
  assert (totalWeeks steps == Qsum (weeks <$> steps)) as Hexact.
  { apply totalWeeks_whole; [|lra].
    apply (Forall_weeks (λ w, Number_isInteger w = true ∧ (0 <= w)%Q)).
    rewrite (roadmapSteps_weeks _ _ _ Hsteps).
    apply Forall_fmap, Forall_forall. intros name Hin. unfold compose.
    rewrite (Hnone name Hin). cbn [weeks_of].
    destruct (fallback_weeks_positive_integer (difficulty_of None name)) as [Hp Hi].
    split; [done|lra]. }
  rewrite <- Hexact in Hlo, Hhi.
  split_and!; [lra|lra|].
  unfold totalMonths, Math_ceil. rewrite <- Zle_Qle. apply Qceiling_le_Z.
  apply Qle_shift_div_r; [reflexivity|]. lra.
Qed.

(** "Databases" and "Go": five weeks and two months, for two steps. *)
Lemma fallback_roadmap_bounds_witness :
  ∃ steps,
    roadmapSteps empty_taxonomy (job_with (Some [lit "Databases"; lit "Go"])) = Ok steps ∧
    totalWeeks steps == 5 ∧
    totalMonths steps == 2 ∧
    (totalMonths steps <= inject_Z (Z.of_nat (length steps)))%Q.
Proof.
  eexists. split; [reflexivity|]. split; [by vm_compute|]. split; [by vm_compute|].
  eapply (fallback_roadmap_bounds empty_taxonomy
            (job_with (Some [lit "Databases"; lit "Go"]))).
  - reflexivity.
  - intros name _. reflexivity.
  - by vm_compute.
Defined.

(** X12.  When every missing skill has a taxonomy entry whose
    [learningTimeMonths] is a positive whole number, and four times their sum
    is below 2^53, the weeks add up to four times the sum of the months and
    the months in the header are exactly that sum. *)
Theorem totalMonths_whole_months
    (skillTaxonomy : gmap jsstring Taxonomy.entry) (job : Job.t)
    (steps : list RoadmapStep) :
  roadmapSteps skillTaxonomy job = Ok steps →
  (∀ name, name ∈ missingSkills job →
     ∃ entry, skillTaxonomy !! name = Some entry ∧
              (0 < Taxonomy.learningTimeMonths entry)%Q ∧
              Number_isInteger (Taxonomy.learningTimeMonths entry) = true) →
  (4 * Qsum (monthsOf skillTaxonomy <$> missingSkills job) < inject_Z (2 ^ 53))%Q →
  totalWeeks steps == 4 * Qsum (monthsOf skillTaxonomy <$> missingSkills job) ∧
  totalMonths steps == Qsum (monthsOf skillTaxonomy <$> missingSkills job).
Proof.
  intros Hsteps Hentries Hbound.
  pose proof (roadmapSteps_weeks _ _ _ Hsteps) as Hweeks.
  assert (Hw : ∀ name, name ∈ missingSkills job →
            weeks_of (skillTaxonomy !! name) (difficulty_of (skillTaxonomy !! name) name)
            = (monthsOf skillTaxonomy name * 4)%Q ∧
            ∃ z, 0 ≤ z ∧ monthsOf skillTaxonomy name == inject_Z z).
  { intros name (entry & Hentry & Hpos & Hint)%Hentries.
    unfold monthsOf. rewrite Hentry.
    cbn [weeks_of fmap option_fmap option_map default from_option id].
    rewrite (number_truthy_pos _ Hpos). split; [done|].
    apply Number_isInteger_Z; [done|lra]. }
  assert (Hsum : Qsum (weeks <$> steps)
                 == 4 * Qsum (monthsOf skillTaxonomy <$> missingSkills job)).
  { rewrite Hweeks.
    rewrite (Qsum_fmap_ext _ (λ name, monthsOf skillTaxonomy name * 4)%Q).
    - apply Qsum_fmap_scale.
    - intros name [-> _]%Hw. reflexivity. }
  assert (Hexact : totalWeeks steps == Qsum (weeks <$> steps)).
  { apply totalWeeks_whole; [|by rewrite Hsum].
    apply (Forall_weeks (λ w, Number_isInteger w = true ∧ (0 <= w)%Q)).
    rewrite Hweeks. apply Forall_fmap, Forall_forall. intros name Hin. unfold compose.
    destruct (Hw name Hin) as [-> (z & Hz & Hm)]. split.
    - apply (Number_isInteger_inject _ (z * 4)). by rewrite Hm, inject_Z_mult.
    - rewrite Hm. rewrite Zle_Qle in Hz. change (inject_Z 0) with 0%Q in Hz. lra. }
  split; [by rewrite Hexact|].
  destruct (Qsum_fmap_Z (monthsOf skillTaxonomy) (missingSkills job)) as [s Hs].
  { intros name Hin. destruct (Hw name Hin) as [_ (z & _ & Hm)]. eauto. }
  unfold totalMonths, Math_ceil.
  assert (totalWeeks steps / 4 == inject_Z s) as Hdiv
    by (rewrite Hexact, Hsum, Hs; field).
  by rewrite (Qceiling_comp _ _ Hdiv), Qceiling_Z, Hs.
Qed.

(** Two months and three months: twenty weeks, five months. *)
Lemma totalMonths_whole_months_witness :
  ∃ steps,
    roadmapSteps whole_taxonomy
      (job_with (Some [lit "Kubernetes"; lit "Docker"])) = Ok steps ∧
    totalWeeks steps == 20 ∧
    totalMonths steps == 5.
Proof.
  eexists. split; [reflexivity|].
  match goal with
  | |- totalWeeks ?steps == _ ∧ _ =>
      destruct (totalMonths_whole_months whole_taxonomy
                  (job_with (Some [lit "Kubernetes"; lit "Docker"])) steps eq_refl)
        as [Hweeks Hmonths]
  end.
  { intros name [->|[->|[]%elem_of_nil]%elem_of_cons]%elem_of_cons.
    - exists kubernetes_entry. split; [reflexivity|]. split; by vm_compute.
    - exists docker_entry. split; [reflexivity|]. split; by vm_compute. }
  { by vm_compute. }
  split; [rewrite Hweeks; by vm_compute|rewrite Hmonths; by vm_compute].
Defined.

(** ** The learning path *)

Lemma mode_LearningPath_run n evs :
  mode n (run n initialState evs) = LearningPath →
  0 ≤ activeSkillIndex (run n initialState evs) ≤ n - 1.
Proof.
  intros [_ Hn]%mode_LearningPath. apply run_index_in_range. simpl. lia.
Qed.

(** X13.  However the user got there, when the learning path of a built
    roadmap is shown, [roadmapSteps[activeSkillIndex]] is a step of the
    roadmap: the one for the missing skill at that index, numbered
    [activeSkillIndex + 1]. *)
Theorem activeStep_defined
    (skillTaxonomy : gmap jsstring Taxonomy.entry) (job : Job.t)
    (steps : list RoadmapStep) (evs : list Event) :
  roadmapSteps skillTaxonomy job = Ok steps →
  mode (Z.of_nat (length steps))
    (run (Z.of_nat (length steps)) initialState evs) = LearningPath →
  ∃ step,
    activeStep steps (run (Z.of_nat (length steps)) initialState evs) = Some step ∧
    order step = activeSkillIndex (run (Z.of_nat (length steps)) initialState evs) + 1 ∧
    missingSkills job
      !! Z.to_nat (activeSkillIndex (run (Z.of_nat (length steps)) initialState evs))
    = Some (skill step).
Proof.
  intros Hsteps Hrange%mode_LearningPath_run.
  set (st := run (Z.of_nat (length steps)) initialState evs) in *.
  unfold activeStep, Array_get.
  destruct (Z.ltb_spec (activeSkillIndex st) 0); [lia|].
  destruct (steps !! Z.to_nat (activeSkillIndex st)) as [step|] eqn:Hstep.
  - exists step. split; [done|].
    unfold roadmapSteps, Array_map in Hsteps.
    destruct (map_from_lookup _ _ _ _ _ _ Hsteps Hstep) as (name & Hname & Hcall).
    apply roadmapStep_Ok in Hcall as (-> & _ & _ & -> & _). split; [lia|done].
  - apply lookup_ge_None in Hstep. lia.
Qed.

(** Start, then the sidebar button of the third step of three. *)
Lemma activeStep_defined_witness :
  ∃ steps step,
    roadmapSteps sample_taxonomy
      (job_with (Some [lit "Go"; lit "Kubernetes"; lit "Python"])) = Ok steps ∧
    activeStep steps (run 3 initialState [StartJourney; SelectStep 2]) = Some step ∧
    order step = 3 ∧
    skill step = lit "Python".
Proof.
  eexists. 
  match goal with
  | |- ∃ step, ?R = Ok ?steps ∧ _ =>
      assert (Hsteps : R = Ok steps) by reflexivity;
      destruct (activeStep_defined sample_taxonomy
                  (job_with (Some [lit "Go"; lit "Kubernetes"; lit "Python"]))
                  steps [StartJourney; SelectStep 2] Hsteps eq_refl)
        as (step & Hactive & Horder & Hskill)
  end.
  exists step. split; [exact Hsteps|]. split; [exact Hactive|].
  split; [exact Horder|]. by injection Hskill.
Defined.

(** X14.  The learning path does not check the index: in a state whose
    index is past the end of a non-empty roadmap, as it is when the state
    built on a longer roadmap meets a shorter one, the learning-path branch
    of line 164 is still taken and [roadmapSteps[activeSkillIndex]] is
    [undefined]. *)
Theorem stale_index_undefined (steps : list RoadmapStep) (st : ViewState) :
  showLearningPath st = true →
  steps ≠ [] →
  activeSkillIndex st < 0 ∨ Z.of_nat (length steps) ≤ activeSkillIndex st →
  mode (Z.of_nat (length steps)) st = LearningPath ∧
  activeStep steps st = None.
Proof.
  intros Hshow Hne Hout. split.
  - apply mode_LearningPath. split; [done|]. destruct steps; [done|]. simpl. lia.
  - unfold activeStep, Array_get.
    destruct (Z.ltb_spec (activeSkillIndex st) 0); [done|].
    apply lookup_ge_None. lia.
Qed.

(** The third step of a three-step roadmap was selected; the roadmap at hand
    has one step. *)
Lemma stale_index_undefined_witness :
  ∃ step,
    roadmapSteps sample_taxonomy (job_with (Some [lit "Go"])) = Ok [step] ∧
    mode 1 (run 3 initialState [StartJourney; SelectStep 2]) = LearningPath ∧
    activeStep [step] (run 3 initialState [StartJourney; SelectStep 2]) = None.
Proof.
  eexists. split; [reflexivity|].
  match goal with
  | |- _ ∧ activeStep [?step] _ = None =>
      apply (stale_index_undefined [step]
               (run 3 initialState [StartJourney; SelectStep 2]) eq_refl)
  end.
  - discriminate.
  - right. simpl. lia.
Defined.

Section Navigation.

Variable n : Z.

Lemma dispatch_NextSkill st :
  mode n st = LearningPath → 0 ≤ activeSkillIndex st ≤ n - 1 →
  mode n (dispatch n st NextSkill) = LearningPath ∧
  activeSkillIndex (dispatch n st NextSkill) = Z.min (activeSkillIndex st + 1) (n - 1).
Proof.
  intros Hmode Hrange. unfold dispatch, fire. rewrite Hmode.
  destruct (Z.ltb_spec (activeSkillIndex st) (n - 1)); simpl.
  - split; [|lia]. apply mode_LearningPath in Hmode. by apply mode_LearningPath.
  - split; [done|lia].
Qed.

Lemma dispatch_PreviousSkill st :
  mode n st = LearningPath → 0 ≤ activeSkillIndex st ≤ n - 1 →
  mode n (dispatch n st PreviousSkill) = LearningPath ∧
  activeSkillIndex (dispatch n st PreviousSkill) = Z.max (activeSkillIndex st - 1) 0.
Proof.
  intros Hmode Hrange. unfold dispatch, fire. rewrite Hmode.
  destruct (Z.eqb_spec (activeSkillIndex st) 0); simpl.
  - split; [done|lia].
  - split; [|lia]. apply mode_LearningPath in Hmode. by apply mode_LearningPath.
Qed.

Lemma mode_setActiveSkillIndex i st : mode n (setActiveSkillIndex i st) = mode n st.
Proof. done. Qed.

Lemma dispatch_NextSkill_eq st :
  mode n st = LearningPath → 0 ≤ activeSkillIndex st ≤ n - 1 →
  dispatch n st NextSkill
  = setActiveSkillIndex (Z.min (activeSkillIndex st + 1) (n - 1)) st.
Proof.
  intros Hmode Hrange. unfold dispatch, fire. rewrite Hmode.
  destruct (Z.ltb_spec (activeSkillIndex st) (n - 1)); cbn [default from_option id].
  - f_equal. lia.
  - destruct st as [show i]. unfold setActiveSkillIndex.
    cbn [activeSkillIndex showLearningPath] in *. f_equal. lia.
Qed.

Lemma dispatch_PreviousSkill_eq st :
  mode n st = LearningPath → 0 ≤ activeSkillIndex st ≤ n - 1 →
  dispatch n st PreviousSkill
  = setActiveSkillIndex (Z.max (activeSkillIndex st - 1) 0) st.
Proof.
  intros Hmode Hrange. unfold dispatch, fire. rewrite Hmode.
  destruct (Z.eqb_spec (activeSkillIndex st) 0); cbn [default from_option id].
  - destruct st as [show i]. unfold setActiveSkillIndex.
    cbn [activeSkillIndex showLearningPath] in *. f_equal. lia.
  - f_equal. lia.
Qed.

(** X15.  In the learning path, [k] presses on the right-hand button take
    the index from [i] to [min (i + k) (n - 1)] and [k] presses on the
    left-hand one to [max (i - k) 0]; the learning path stays open. *)
Theorem repeated_presses (st : ViewState) (k : nat) :
  mode n st = LearningPath →
  0 ≤ activeSkillIndex st ≤ n - 1 →
  (mode n (run n st (replicate k NextSkill)) = LearningPath ∧
   activeSkillIndex (run n st (replicate k NextSkill))
   = Z.min (activeSkillIndex st + Z.of_nat k) (n - 1)) ∧
  (mode n (run n st (replicate k PreviousSkill)) = LearningPath ∧
   activeSkillIndex (run n st (replicate k PreviousSkill))
   = Z.max (activeSkillIndex st - Z.of_nat k) 0).
Proof.
  revert st. induction k as [|k IH]; intros st Hmode Hrange.
  - simpl. split; (split; [done|lia]).
  - cbn [replicate run fold_left].
    destruct (dispatch_NextSkill st Hmode Hrange) as [Hm1 Hi1].
    destruct (dispatch_PreviousSkill st Hmode Hrange) as [Hm2 Hi2].
    assert (0 ≤ activeSkillIndex (dispatch n st NextSkill) ≤ n - 1) as Hr1 by lia.
    assert (0 ≤ activeSkillIndex (dispatch n st PreviousSkill) ≤ n - 1) as Hr2 by lia.
    split.
    + destruct (IH (dispatch n st NextSkill) Hm1 Hr1) as [[Hm Hi] _].
      split; [exact Hm|]. unfold run in Hi. rewrite Hi, Hi1. lia.
    + destruct (IH (dispatch n st PreviousSkill) Hm2 Hr2) as [_ [Hm Hi]].
      split; [exact Hm|]. unfold run in Hi. rewrite Hi, Hi2. lia.
Qed.

(** X16.  In the learning path, going on and then back returns to the
    state left unless the step was the last one, and going back and then on
    returns to it unless the step was the first. *)
Theorem next_previous_round_trip (st : ViewState) :
  mode n st = LearningPath →
  0 ≤ activeSkillIndex st ≤ n - 1 →
  (activeSkillIndex st < n - 1 → run n st [NextSkill; PreviousSkill] = st) ∧
  (0 < activeSkillIndex st → run n st [PreviousSkill; NextSkill] = st).
Proof.
  intros Hmode Hrange. unfold run. cbn [fold_left].
  pose proof (dispatch_NextSkill_eq st Hmode Hrange) as Hnext.
  pose proof (dispatch_PreviousSkill_eq st Hmode Hrange) as Hprev.
  split; intros Hi.
  - rewrite Hnext, dispatch_PreviousSkill_eq.
    + destruct st as [show i]. unfold setActiveSkillIndex.
      cbn [activeSkillIndex showLearningPath] in *. f_equal. lia.
    + by rewrite mode_setActiveSkillIndex.
    + cbn [setActiveSkillIndex activeSkillIndex]. lia.
  - rewrite Hprev, dispatch_NextSkill_eq.
    + destruct st as [show i]. unfold setActiveSkillIndex.
      cbn [activeSkillIndex showLearningPath] in *. f_equal. lia.
    + by rewrite mode_setActiveSkillIndex.
    + cbn [setActiveSkillIndex activeSkillIndex]. lia.
Qed.

(** X17.  Only the start and back buttons change which dialog is asked
    for, only the three navigation controls of the learning path change the
    index, and in the overview every control but the start button leaves the
    state as it is. *)
Theorem controls_frame (st : ViewState) (ev : Event) :
  (showLearningPath (dispatch n st ev) ≠ showLearningPath st →
     ev = StartJourney ∨ ev = BackToOverview) ∧
  (activeSkillIndex (dispatch n st ev) ≠ activeSkillIndex st →
     mode n st = LearningPath ∧ ev ≠ StartJourney ∧ ev ≠ BackToOverview) ∧
  (mode n st = Overview → ev ≠ StartJourney → dispatch n st ev = st).
Proof.
  unfold dispatch, fire.
  destruct (mode n st) eqn:Hmode, ev; simpl;
    repeat match goal with
           | |- context [if ?b then _ else _] => destruct b
           end; simpl; split_and!; intros; try done; eauto.
Qed.

End Navigation.

(** From the second of five steps: three presses on reach the last step,
    three presses back the first. *)
Lemma repeated_presses_witness :
  activeSkillIndex
    (run 5 {| showLearningPath := true; activeSkillIndex := 1 |}
       (replicate 3 NextSkill)) = 4 ∧
  activeSkillIndex
    (run 5 {| showLearningPath := true; activeSkillIndex := 1 |}
       (replicate 3 PreviousSkill)) = 0.
Proof.
  destruct (repeated_presses 5 {| showLearningPath := true; activeSkillIndex := 1 |} 3
              eq_refl ltac:(simpl; lia)) as [[_ Hnext] [_ Hprev]].
  split; [exact Hnext|exact Hprev].
Defined.

Lemma next_previous_round_trip_witness :
  run 5 {| showLearningPath := true; activeSkillIndex := 1 |} [NextSkill; PreviousSkill]
  = {| showLearningPath := true; activeSkillIndex := 1 |} ∧
  run 5 {| showLearningPath := true; activeSkillIndex := 1 |} [PreviousSkill; NextSkill]
  = {| showLearningPath := true; activeSkillIndex := 1 |}.
Proof.
  destruct (next_previous_round_trip 5
              {| showLearningPath := true; activeSkillIndex := 1 |}
              eq_refl ltac:(simpl; lia)) as [Hnp Hpn].
  split; [apply Hnp; simpl; lia|apply Hpn; simpl; lia].
Defined.

(** In the overview the sidebar and the arrows do nothing. *)
Lemma controls_frame_witness :
  mode 3 initialState = Overview ∧
  dispatch 3 initialState NextSkill = initialState ∧
  dispatch 3 initialState (SelectStep 2) = initialState.
Proof.
  split; [reflexivity|]. split.
  - apply (controls_frame 3 initialState NextSkill); [reflexivity|discriminate].
  - apply (controls_frame 3 initialState (SelectStep 2)); [reflexivity|discriminate].
Defined.

(** ** The overview *)

(** X18.  The overview previews the first steps of the roadmap, three at
    most; the previewed steps and the count of the "more skills" line add up
    to the whole roadmap, the line being absent exactly when every step is
    previewed; and a connector is drawn below every previewed step but the
    last one. *)
Theorem overview_preview (steps : list RoadmapStep) :
  (∃ rest, steps = previewSteps steps ++ rest) ∧
  (length (previewSteps steps) ≤ 3)%nat ∧
  Z.of_nat (length (previewSteps steps)) + default 0 (moreSkills steps)
  = Z.of_nat (length steps) ∧
  (moreSkills steps = None ↔ previewSteps steps = steps) ∧
  (∀ idx : nat, (idx < length (previewSteps steps))%nat →
     (connectorBelow steps (Z.of_nat idx) = true
      ↔ (S idx < length (previewSteps steps))%nat)).
Proof.
  unfold previewSteps, moreSkills, connectorBelow.
  pose proof (length_take steps 3) as Hlen.
  split_and!.
  - exists (drop 3 steps). by rewrite take_drop.
  - lia.
  - destruct (Z.gtb_spec (Z.of_nat (length steps)) 3); cbn [default from_option id]; lia.
  - destruct (Z.gtb_spec (Z.of_nat (length steps)) 3); split; try done.
    + intros Htake. rewrite Htake in Hlen. lia.
    + intros _. apply take_ge. lia.
  - intros idx Hidx. rewrite Z.ltb_lt. lia.
Qed.

Lemma overview_preview_witness :
  ∃ steps,
    roadmapSteps empty_taxonomy
      (job_with (Some [lit "Go"; lit "Rust"; lit "Python"; lit "Docker"; lit "Kafka"]))
    = Ok steps ∧
    skill <$> previewSteps steps = [lit "Go"; lit "Rust"; lit "Python"] ∧
    moreSkills steps = Some 2 ∧
    connectorBelow steps 1 = true ∧
    connectorBelow steps 2 = false.
Proof.
  eexists. split; [reflexivity|]. split; [reflexivity|]. split; [reflexivity|].
  match goal with
  | |- connectorBelow ?steps _ = _ ∧ _ =>
      destruct (overview_preview steps) as (_ & _ & _ & _ & Hconn)
  end.
  split.
  - apply (Hconn 1%nat); simpl; lia.
  - apply not_true_is_false. intros Hc.
    apply (Hconn 2%nat) in Hc; simpl in Hc; [lia|simpl; lia].
Defined.

(** X19.  Every resource of a skill has a link starting with "https://",
    so the anchor of line 318 always points to it and never to "#". *)
Theorem href_is_link (skill : jsstring) (rs : list LearningResource)
    (resource : LearningResource) :
  generateResources skill = Ok rs →
  resource ∈ rs →
  ∃ rest,
    link resource = Some (lit "https://" ++ rest) ∧
    href resource = lit "https://" ++ rest ∧
    href resource ≠ lit "#".
Proof.
  unfold generateResources.
  destruct (encodeURIComponent skill) as [e|]; cbn [mbind result_bind]; [|done].
  intros [= <-] Hin.
  repeat (apply elem_of_cons in Hin as [->|Hin]); [| | | |by apply elem_of_nil in Hin].
  - exists (lit "www.udemy.com/courses/search/?q=" ++ e). by split_and!.
  - exists (lit "www.youtube.com/results?search_query=" ++ e ++ lit "+tutorial").
    by split_and!.
  - exists (lit "github.com/topics/" ++ toLowerCase e). by split_and!.
  - exists (lit "www.google.com/search?q=" ++ e ++ lit "+best+practices+guide").
    by split_and!.
Qed.

Lemma href_is_link_witness :
  ∃ rs resource,
    generateResources (lit "Go") = Ok rs ∧
    rs !! 2%nat = Some resource ∧
    href resource = lit "https://github.com/topics/go" ∧
    href resource ≠ lit "#".
Proof.
  eexists _, _. split; [reflexivity|]. split; [reflexivity|]. split; [reflexivity|].
  match goal with
  | |- href ?r ≠ _ =>
      destruct (href_is_link (lit "Go") _ r eq_refl) as (rest & _ & _ & Hne)
  end.
  - do 2 apply list_elem_of_further. apply list_elem_of_here.
  - exact Hne.
Defined.

(** X20.  The three difficulties get three different colour classes, none
    of them the muted one, which every other string gets: the badge of a step
    tells its difficulty. *)
Theorem difficulty_colors :
  (∀ d1 d2, getDifficultyColor (Difficulty_string d1)
            = getDifficultyColor (Difficulty_string d2) → d1 = d2) ∧
  (∀ d, getDifficultyColor (Difficulty_string d) ≠ lit "bg-muted text-muted-foreground") ∧
  (∀ s, (∀ d, s ≠ Difficulty_string d) →
        getDifficultyColor s = lit "bg-muted text-muted-foreground").
Proof.
  split_and!.
  - intros [] []; vm_compute; congruence.
  - intros []; vm_compute; congruence.
  - intros s Hs. unfold getDifficultyColor.
    rewrite !bool_decide_eq_false_2; [done|apply (Hs Hard)|apply (Hs Medium)|apply (Hs Easy)].
Qed.

Lemma difficulty_colors_witness :
  getDifficultyColor (lit "Expert") = lit "bg-muted text-muted-foreground" ∧
  getDifficultyColor (lit "Hard") = lit "bg-rose-500/10 text-rose-500 border-rose-500/20".
Proof.
  destruct difficulty_colors as (_ & _ & Hother).
  split; [|reflexivity].
  apply Hother. intros []; discriminate.
Defined.
